(** * signalk-seastate: the motion-analysis engine of [src/index.ts]

    A shallow embedding of the estimation engine (sample buffer, zero-crossing
    period detector, pitch/roll statistics, wave-direction estimator, heave)
    together with the properties stated about it.

    Numbers.  The plugin computes on JavaScript numbers.  Finite numbers are
    idealised as real numbers ([R]); rounding, overflow and underflow are not
    modelled.  The one division whose divisor can be zero (the cross
    correlation, whose quotient the source tests with [isNaN]) is modelled
    with an explicit result type that has not-a-number and the infinities.
    Clock readings ([Date.now()]) are integers ([Z], milliseconds).

    State.  The closure variable [state] of the plugin is threaded
    explicitly: a function of the source that mutates it takes a
    [PluginState] and returns the new one next to its result. *)

From Stdlib Require Import String Ascii.
From Stdlib Require Import Reals Lra Lia List ZArith Bool Sorted.
Import ListNotations.
Open Scope R_scope.

(** ** The JavaScript operations the engine uses *)

Module JS.

(** Outcome of a division of two finite numbers. *)
Inductive number : Type :=
| Fin (r : R)
| PosInf
| NegInf
| NaN.

Definition ltb (x y : R) : bool := if Rlt_dec x y then true else false.
Definition leb (x y : R) : bool := if Rle_dec x y then true else false.
Definition eqb (x y : R) : bool := if Req_dec_T x y then true else false.

(** [a / b] for finite [a] and a finite [b] that is not negative zero:
    [0 / 0] is not-a-number, [a / 0] is an infinity of the sign of [a]. *)
Definition div (a b : R) : number :=
  if eqb b 0 then
    if eqb a 0 then NaN else if ltb 0 a then PosInf else NegInf
  else Fin (a / b).

Definition isNaN (x : number) : bool :=
  match x with NaN => true | _ => false end.

(** [x > 0] for a possibly infinite [x]. *)
Definition gt0 (x : number) : bool :=
  match x with
  | Fin r => ltb 0 r
  | PosInf => true
  | NegInf | NaN => false
  end.

(** [Math.atan2(y, x)], with values in (-PI, PI]. *)
Definition atan2 (y x : R) : R :=
  if ltb 0 x then atan (y / x)
  else if ltb x 0 then
    if leb 0 y then atan (y / x) + PI else atan (y / x) - PI
  else if ltb 0 y then PI / 2
  else if ltb y 0 then - (PI / 2)
  else 0.

(** [Math.hypot(a, b)]. *)
Definition hypot (a b : R) : R := sqrt (a * a + b * b).

(** [Math.ceil(x)], the least integer that is not below [x]. *)
Definition ceil (x : R) : Z := (1 - up (- x))%Z.

(** [Math.max(a, b)]. *)
Definition max (a b : R) : R := if leb a b then b else a.

(** [xs.reduce((a, b) => a + b, 0)]. *)
Definition sum (xs : list R) : R := fold_left Rplus xs 0.

(** [xs.push(x); if (xs.length > bound) xs.shift()] on an array of the
    engine: append, then drop the first element when over the bound. *)
Definition pushShift {A : Type} (bound : Z) (xs : list A) (x : A) : list A :=
  let xs' := xs ++ [x] in
  if (bound <? Z.of_nat (length xs'))%Z then tl xs' else xs'.

End JS.

(** ** Data model *)

(** Modelled from the spec: the interfaces of [src/types.ts], which is not
    among the sources.  Each record has the fields that [index.ts] reads or
    writes; the subscription handles and timers of [PluginState] are left
    out (no computation of the engine reads them). *)

Record PluginConfig : Type := {
  enabled : bool;
  waveMultiplier : R;
  baselineK : R;
  vesselName : option string;
  updateRate : R;
  enableHeave : bool;
  enablePeriod : bool;
  enableDirection : bool;
  vesselLength : R;
  periodBufferSize : R;
  minimumPeriod : R;
  maximumPeriod : R;
  directionSmoothing : R;
  compassSource : string
}.

(** [state.lastAttitude]: the last known value of each component, [None]
    for [null]. *)
Module Attitude.
Record t : Type := mk {
  pitch : option R;
  roll : option R;
  yaw : option R;
  timestamp : option string
}.
End Attitude.

(** An element of [state.attitudeBuffer]; [yaw] is [None] for [undefined]. *)
Module AttitudeBufferEntry.
Record t : Type := mk {
  pitch : R;
  roll : R;
  yaw : option R;
  timestamp : Z;
  motionMagnitude : R
}.
End AttitudeBufferEntry.
Definition Entry : Type := AttitudeBufferEntry.t.

Inductive CrossingType : Type := RollCrossing.

Module ZeroCrossing.
Record t : Type := mk {
  time : Z;
  index : nat;
  type : CrossingType
}.
End ZeroCrossing.

Inductive MotionAxis : Type := AxisPitch | AxisRoll | AxisCombined.

Record MotionStatistics : Type := {
  pitchVariance : R;
  rollVariance : R;
  crossCorrelation : JS.number;
  dominantMotionAxis : MotionAxis;
  motionPhaseShift : R
}.

Record PeriodState : Type := {
  periods : list R;
  lastZeroCrossing : option ZeroCrossing.t
}.

Record DirectionState : Type := {
  directionBuffer : list R;
  lastDirection : option R;
  directionConfidence : R
}.

Record PluginState : Type := {
  lastAttitude : Attitude.t;
  lastHeading : option R;
  attitudeBuffer : list Entry;
  maxBufferSize : Z;
  periodState : PeriodState;
  directionState : DirectionState;
  currentConfig : PluginConfig;
  vesselLengthFromDesign : option R
}.

Module SeaStateResults.
Record t : Type := mk {
  waveHeight : R;
  heave : option R;
  period : option R;
  direction : option R;
  directionDegrees : option R;
  directionConfidence : R;
  motionMagnitude : R;
  timestamp : Z
}.
End SeaStateResults.

(** Field updates of the plugin state. *)

Definition set_lastAttitude (a : Attitude.t) (st : PluginState) : PluginState :=
  {| lastAttitude := a; lastHeading := lastHeading st;
     attitudeBuffer := attitudeBuffer st; maxBufferSize := maxBufferSize st;
     periodState := periodState st; directionState := directionState st;
     currentConfig := currentConfig st;
     vesselLengthFromDesign := vesselLengthFromDesign st |}.

Definition set_lastHeading (h : option R) (st : PluginState) : PluginState :=
  {| lastAttitude := lastAttitude st; lastHeading := h;
     attitudeBuffer := attitudeBuffer st; maxBufferSize := maxBufferSize st;
     periodState := periodState st; directionState := directionState st;
     currentConfig := currentConfig st;
     vesselLengthFromDesign := vesselLengthFromDesign st |}.

Definition set_attitudeBuffer (b : list Entry) (st : PluginState) : PluginState :=
  {| lastAttitude := lastAttitude st; lastHeading := lastHeading st;
     attitudeBuffer := b; maxBufferSize := maxBufferSize st;
     periodState := periodState st; directionState := directionState st;
     currentConfig := currentConfig st;
     vesselLengthFromDesign := vesselLengthFromDesign st |}.

Definition set_periodState (p : PeriodState) (st : PluginState) : PluginState :=
  {| lastAttitude := lastAttitude st; lastHeading := lastHeading st;
     attitudeBuffer := attitudeBuffer st; maxBufferSize := maxBufferSize st;
     periodState := p; directionState := directionState st;
     currentConfig := currentConfig st;
     vesselLengthFromDesign := vesselLengthFromDesign st |}.

Definition set_directionState (d : DirectionState) (st : PluginState) : PluginState :=
  {| lastAttitude := lastAttitude st; lastHeading := lastHeading st;
     attitudeBuffer := attitudeBuffer st; maxBufferSize := maxBufferSize st;
     periodState := periodState st; directionState := d;
     currentConfig := currentConfig st;
     vesselLengthFromDesign := vesselLengthFromDesign st |}.

Definition set_config (c : PluginConfig) (m : Z) (st : PluginState) : PluginState :=
  {| lastAttitude := lastAttitude st; lastHeading := lastHeading st;
     attitudeBuffer := attitudeBuffer st; maxBufferSize := m;
     periodState := periodState st; directionState := directionState st;
     currentConfig := c;
     vesselLengthFromDesign := vesselLengthFromDesign st |}.

(** The [state] object as the plugin creates it (index.ts, lines 41-63);
    [currentConfig] is filled by [start]. *)
Definition initialState (c : PluginConfig) : PluginState :=
  {| lastAttitude := Attitude.mk None None None None;
     lastHeading := None;
     attitudeBuffer := [];
     maxBufferSize := 30;
     periodState := {| periods := []; lastZeroCrossing := None |};
     directionState :=
       {| directionBuffer := []; lastDirection := None; directionConfidence := 0 |};
     currentConfig := c;
     vesselLengthFromDesign := None |}.

(** [plugin.start], the part that concerns the engine (line 204-206): the
    configuration, with its defaults already applied, is stored and the
    buffer capacity is derived from it. *)
Definition start (config : PluginConfig) (st : PluginState) : PluginState :=
  set_config config
    (JS.ceil (periodBufferSize config * 1000 / updateRate config)) st.

(** ** The engine *)

Import AttitudeBufferEntry.

(** [calculateHeave] (lines 390-394). *)
Definition calculateHeave (pitchRad vesselLength : R) : R :=
  vesselLength * sin pitchRad.

(** The loop of [findPeaks] (lines 470-474): [i] is the loop variable and
    [n] the number of iterations left. *)
Fixpoint findPeaksFrom (values : list R) (i n : nat) : list nat :=
  match n with
  | O => []
  | S n' =>
      let rest := findPeaksFrom values (S i) n' in
      if JS.ltb (nth (i - 1) values 0) (nth i values 0)
         && JS.ltb (nth (i + 1) values 0) (nth i values 0)
      then i :: rest
      else rest
  end.

(** [findPeaks] (lines 468-476): the interior indices that are strict
    local maxima. *)
Definition findPeaks (values : list R) : list nat :=
  findPeaksFrom values 1 (length values - 2).

(** The [reduce] without initial value of lines 446-448: the roll peak
    nearest by index, the earlier one on a tie.  The caller has checked that
    [rollPeaks] is not empty. *)
Definition nearestRollPeak (rollPeaks : list nat) (pitchPeak : nat) : nat :=
  match rollPeaks with
  | [] => pitchPeak
  | first :: rest =>
      fold_left
        (fun nearest rollPeak =>
           if (Z.abs (Z.of_nat rollPeak - Z.of_nat pitchPeak)
               <? Z.abs (Z.of_nat nearest - Z.of_nat pitchPeak))%Z
           then rollPeak else nearest)
        rest first
  end.

(** The indexed [reduce] of line 420. *)
Definition crossProductSum (pitchValues rollValues : list R)
    (pitchMean rollMean : R) : R :=
  fst (fold_left
         (fun (st : R * nat) pitch =>
            let (acc, i) := st in
            (acc + (pitch - pitchMean) * (nth i rollValues 0 - rollMean), S i))
         pitchValues (0, O)).

(** The [reduce] of lines 415-416. *)
Definition squaredDeviationSum (values : list R) (mean : R) : R :=
  fold_left (fun acc val => acc + (val - mean) ^ 2) values 0.

(** [calculateMotionStatistics] (lines 397-465); [st] is the plugin state
    the closure reads the update rate from. *)
Definition calculateMotionStatistics (st : PluginState) (buffer : list Entry)
    : MotionStatistics :=
  if (length buffer <? 5)%nat then
    {| pitchVariance := 0; rollVariance := 0; crossCorrelation := JS.Fin 0;
       dominantMotionAxis := AxisCombined; motionPhaseShift := 0 |}
  else
    let pitchValues := map pitch buffer in
    let rollValues := map roll buffer in
    let pitchMean := JS.sum pitchValues / INR (length pitchValues) in
    let rollMean := JS.sum rollValues / INR (length rollValues) in
    let pitchVariance :=
      squaredDeviationSum pitchValues pitchMean / INR (length pitchValues) in
    let rollVariance :=
      squaredDeviationSum rollValues rollMean / INR (length rollValues) in
    let crossCorrelation :=
      JS.div (crossProductSum pitchValues rollValues pitchMean rollMean)
             (INR (length pitchValues) * sqrt (pitchVariance * rollVariance)) in
    let varianceRatio := pitchVariance / (rollVariance + 1e-10) in
    let dominantMotionAxis :=
      if JS.ltb 2 varianceRatio then AxisPitch
      else if JS.ltb varianceRatio 0.5 then AxisRoll
      else AxisCombined in
    let motionPhaseShift :=
      if (10 <? length buffer)%nat then
        let pitchPeaks := findPeaks pitchValues in
        let rollPeaks := findPeaks rollValues in
        if (0 <? length pitchPeaks)%nat && (0 <? length rollPeaks)%nat then
          let timeDiffs :=
            map (fun pitchPeak =>
                   IZR (Z.of_nat (nearestRollPeak rollPeaks pitchPeak)
                        - Z.of_nat pitchPeak)
                   * updateRate (currentConfig st))
                pitchPeaks in
          if (0 <? length timeDiffs)%nat
          then JS.sum timeDiffs / INR (length timeDiffs)
          else 0
        else 0
      else 0 in
    {| pitchVariance := pitchVariance;
       rollVariance := rollVariance;
       crossCorrelation :=
         if JS.isNaN crossCorrelation then JS.Fin 0 else crossCorrelation;
       dominantMotionAxis := dominantMotionAxis;
       motionPhaseShift := motionPhaseShift |}.

(** The vector sum of lines 496-505 over the recent entries. *)
Definition motionVectorSum (recentBuffer : list Entry) : R * R :=
  fold_left
    (fun (s : R * R) entry =>
       let (sumX, sumY) := s in
       let motionAngle := JS.atan2 (roll entry) (pitch entry) in
       (sumX + cos motionAngle * motionMagnitude entry,
        sumY + sin motionAngle * motionMagnitude entry))
    recentBuffer (0, 0).

(** [calculateRelativeWaveDirection] (lines 479-516). *)
Definition calculateRelativeWaveDirection (buffer : list Entry)
    (stats : MotionStatistics) : option R :=
  if (length buffer <? 10)%nat then None
  else
    let relativeDirection :=
      match dominantMotionAxis stats with
      | AxisPitch => if JS.gt0 (crossCorrelation stats) then 0 else PI
      | AxisRoll =>
          if JS.gt0 (crossCorrelation stats) then PI / 2 else 3 * PI / 2
      | AxisCombined =>
          let recentBuffer := skipn (length buffer - 10) buffer in
          let (sumX, sumY) := motionVectorSum recentBuffer in
          JS.atan2 sumY sumX
      end in
    Some (if JS.ltb relativeDirection 0
          then relativeDirection + 2 * PI
          else relativeDirection).

(** The two range corrections of lines 538-543 (repeated at 558-563):
    one turn is subtracted when at or above [2 * PI], then one added when
    below zero. *)
Definition ensureRange (d : R) : R :=
  let d := if JS.leb (2 * PI) d then d - 2 * PI else d in
  if JS.ltb d 0 then d + 2 * PI else d.

(** The angle wrapping of lines 552-553 (repeated at 583-584). *)
Definition wrapDelta (d : R) : R :=
  let d := if JS.ltb PI d then d - 2 * PI else d in
  if JS.ltb d (- PI) then d + 2 * PI else d.

(** Lines 535-543: the absolute direction before smoothing. *)
Definition rawAbsoluteDirection (relativeDirection heading : R) : R :=
  ensureRange (relativeDirection + heading).

(** Lines 546-564: smoothing towards the new direction. *)
Definition smoothDirection (st : PluginState) (absoluteDirection : R) : R :=
  match lastDirection (directionState st) with
  | Some lastDir =>
      let smoothing := directionSmoothing (currentConfig st) in
      let deltaDir := wrapDelta (absoluteDirection - lastDir) in
      ensureRange (lastDir + smoothing * deltaDir)
  | None => absoluteDirection
  end.

(** Lines 573-590: the confidence from the buffered directions, kept as it
    was while there are at most five of them. *)
Definition updateConfidence (directions : list R) (previous : R) : R :=
  if (5 <? length directions)%nat then
    let avgDirection :=
      JS.atan2
        (fold_left (fun sum dir => sum + sin dir) directions 0
         / INR (length directions))
        (fold_left (fun sum dir => sum + cos dir) directions 0
         / INR (length directions)) in
    let variance :=
      fold_left
        (fun sum dir =>
           let diff := wrapDelta (dir - avgDirection) in sum + diff * diff)
        directions 0
      / INR (length directions) in
    JS.max 0 (1 - variance / (PI * PI / 4))
  else previous.

(** [calculateAbsoluteWaveDirection] (lines 519-599). *)
Definition calculateAbsoluteWaveDirection (st : PluginState)
    (buffer : list Entry) (stats : MotionStatistics)
    : PluginState * option R :=
  match lastHeading st with
  | None => (st, None)
  | Some heading =>
      match calculateRelativeWaveDirection buffer stats with
      | None => (st, None)
      | Some relativeDirection =>
          let absoluteDirection :=
            smoothDirection st (rawAbsoluteDirection relativeDirection heading) in
          let directions :=
            JS.pushShift 10 (directionBuffer (directionState st))
              absoluteDirection in
          let confidence :=
            updateConfidence directions
              (directionConfidence (directionState st)) in
          (set_directionState
             {| directionBuffer := directions;
                lastDirection := Some absoluteDirection;
                directionConfidence := confidence |} st,
           Some absoluteDirection)
      end
  end.

(** The sign-change test of line 613. *)
Definition isZeroCrossing (prev curr : R) : bool :=
  (JS.ltb prev 0 && JS.leb 0 curr) || (JS.ltb 0 prev && JS.leb curr 0).

(** The first loop of [calculatePeriod] (lines 608-620): [i] is the loop
    variable and [n] the number of iterations left. *)
Fixpoint scanZeroCrossings (buffer : list Entry) (i n : nat)
    : list ZeroCrossing.t :=
  match n with
  | O => []
  | S n' =>
      match nth_error buffer (i - 1), nth_error buffer i with
      | Some before, Some here =>
          let rest := scanZeroCrossings buffer (S i) n' in
          if isZeroCrossing (roll before) (roll here)
          then ZeroCrossing.mk (timestamp here) i RollCrossing :: rest
          else rest
      | _, _ => []
      end
  end.

(** The second loop of [calculatePeriod] (lines 626-634). *)
Fixpoint scanPeriods (config : PluginConfig)
    (zeroCrossings : list ZeroCrossing.t) (j n : nat) : list R :=
  match n with
  | O => []
  | S n' =>
      match nth_error zeroCrossings (j - 1), nth_error zeroCrossings j with
      | Some before, Some here =>
          let timeDiff := (ZeroCrossing.time here - ZeroCrossing.time before)%Z in
          let periodSeconds := IZR timeDiff / 1000 in
          let rest := scanPeriods config zeroCrossings (S j) n' in
          if JS.leb (minimumPeriod config) periodSeconds
             && JS.leb periodSeconds (maximumPeriod config)
          then periodSeconds * 2 :: rest
          else rest
      | _, _ => []
      end
  end.

(** [calculatePeriod] (lines 602-650). *)
Definition calculatePeriod (st : PluginState) : PluginState * option R :=
  if (length (attitudeBuffer st) <? 10)%nat then (st, None)
  else
    let zeroCrossings :=
      scanZeroCrossings (attitudeBuffer st) 1 (length (attitudeBuffer st) - 1) in
    if (length zeroCrossings <? 2)%nat then (st, None)
    else
      let currentPeriods :=
        scanPeriods (currentConfig st) zeroCrossings 1
          (length zeroCrossings - 1) in
      if (length currentPeriods =? 0)%nat then (st, None)
      else
        let avgPeriod := JS.sum currentPeriods / INR (length currentPeriods) in
        let maxPeriodSamples := 10%Z in
        let periods' :=
          JS.pushShift maxPeriodSamples (periods (periodState st)) avgPeriod in
        (set_periodState
           {| periods := periods';
              lastZeroCrossing := lastZeroCrossing (periodState st) |} st,
         Some (JS.sum periods' / INR (length periods'))).

(** [state.lastAttitude.yaw || undefined] (line 674): a yaw that is missing
    or zero is stored as [undefined]. *)
Definition yawOrUndefined (yaw : option R) : option R :=
  match yaw with
  | Some y => if JS.eqb y 0 then None else Some y
  | None => None
  end.

(** [calculateSeaState] (lines 653-736).  [now] is the reading of
    [Date.now()] at line 661 and [later] the clock reading that stamps the
    results at line 718.  The second component is the value handed to
    [emitSeaStateData], [None] when the tick returns early. *)
Definition calculateSeaState (st : PluginState) (now later : Z)
    : PluginState * option SeaStateResults.t :=
  match Attitude.pitch (lastAttitude st), Attitude.roll (lastAttitude st) with
  | Some lastPitch, Some lastRoll =>
      let pitchDeg := lastPitch * (180 / PI) in
      let rollDeg := lastRoll * (180 / PI) in
      let magnitude := JS.hypot pitchDeg rollDeg in
      let bufferEntry :=
        AttitudeBufferEntry.mk lastPitch lastRoll
          (yawOrUndefined (Attitude.yaw (lastAttitude st))) now magnitude in
      let st1 :=
        set_attitudeBuffer
          (JS.pushShift (maxBufferSize st) (attitudeBuffer st) bufferEntry) st in
      let config := currentConfig st1 in
      let waveHeight := waveMultiplier config * magnitude in
      let heave :=
        if enableHeave config
        then Some (calculateHeave lastPitch (vesselLength config))
        else None in
      let (st2, period) :=
        if enablePeriod config && (10 <=? length (attitudeBuffer st1))%nat
        then calculatePeriod st1
        else (st1, None) in
      let (st3, direction) :=
        if enableDirection config && (10 <=? length (attitudeBuffer st2))%nat
        then
          let motionStats := calculateMotionStatistics st2 (attitudeBuffer st2) in
          calculateAbsoluteWaveDirection st2 (attitudeBuffer st2) motionStats
        else (st2, None) in
      let directionDegrees :=
        match direction with
        | Some d => Some (d * 180 / PI)
        | None => None
        end in
      (st3,
       Some (SeaStateResults.mk waveHeight heave period direction
               directionDegrees (directionConfidence (directionState st3))
               magnitude later))
  | _, _ => (st, None)
  end.

(** The attitude object of a delta: a component is [None] when it is not a
    number. *)
Record AttitudeValue : Type := {
  valuePitch : option R;
  valueRoll : option R;
  valueYaw : option R
}.

Definition orElse {A : Type} (new old : option A) : option A :=
  match new with Some _ => new | None => old end.

(** [updateAttitudeFromValue] (lines 370-387): each component that is a
    number replaces the last known one. *)
Definition updateAttitudeFromValue (value : AttitudeValue) (stamp : string)
    (st : PluginState) : PluginState :=
  set_lastAttitude
    (Attitude.mk
       (orElse (valuePitch value) (Attitude.pitch (lastAttitude st)))
       (orElse (valueRoll value) (Attitude.roll (lastAttitude st)))
       (orElse (valueYaw value) (Attitude.yaw (lastAttitude st)))
       (Some stamp))
    st.

(** What the subscriptions deliver (lines 279-294 and 345-364): an
    attitude object, which updates the last attitude and runs a tick, or a
    heading, which is only stored. *)
Inductive Event : Type :=
| AttitudeEvent (value : AttitudeValue) (stamp : string) (now later : Z)
| HeadingEvent (heading : R).

Definition handleEvent (st : PluginState) (e : Event)
    : PluginState * option SeaStateResults.t :=
  match e with
  | AttitudeEvent value stamp now later =>
      calculateSeaState (updateAttitudeFromValue value stamp st) now later
  | HeadingEvent heading => (set_lastHeading (Some heading) st, None)
  end.

(** The engine run over a stream of events: the final state and, per event,
    what was emitted. *)
Fixpoint run (st : PluginState) (events : list Event)
    : PluginState * list (option SeaStateResults.t) :=
  match events with
  | [] => (st, [])
  | e :: rest =>
      let (st1, out) := handleEvent st e in
      let (st2, outs) := run st1 rest in
      (st2, out :: outs)
  end.

(** ** Reference data *)

(** The configuration [plugin.start] builds when no option is given
    (lines 173-188). *)
Definition defaultConfig : PluginConfig :=
  {| enabled := true; waveMultiplier := 0.5; baselineK := 0.1;
     vesselName := None; updateRate := 1000; enableHeave := true;
     enablePeriod := true; enableDirection := true; vesselLength := 12;
     periodBufferSize := 30; minimumPeriod := 2; maximumPeriod := 20;
     directionSmoothing := 0.3; compassSource := EmptyString |}.

(** The clock readings of the ticks of an event stream, in order. *)
Definition tickTimes (events : list Event) : list Z :=
  flat_map
    (fun e => match e with
              | AttitudeEvent _ _ now _ => [now]
              | HeadingEvent _ => []
              end)
    events.

(** The entry that a tick at clock reading [now] appends (lines 671-677). *)
Definition entryOf (st : PluginState) (lastPitch lastRoll : R) (now : Z) : Entry :=
  AttitudeBufferEntry.mk lastPitch lastRoll
    (yawOrUndefined (Attitude.yaw (lastAttitude st))) now
    (JS.hypot (lastPitch * (180 / PI)) (lastRoll * (180 / PI))).

(** Ascending by timestamp. *)
Definition timeOrdered (buffer : list Entry) : Prop :=
  Sorted (fun a b => (timestamp a <= timestamp b)%Z) buffer.

(** A sample with pitch and roll and no yaw, and a short stream of it. *)
Definition sampleValue : AttitudeValue :=
  {| valuePitch := Some 0.1; valueRoll := Some 0.05; valueYaw := None |}.

Definition shortStream : list Event :=
  [ AttitudeEvent sampleValue EmptyString 1000 1000;
    HeadingEvent 1;
    AttitudeEvent sampleValue EmptyString 2000 2001 ].

(** The engine after a delta that carried a roll and no pitch. *)
Definition rollOnlyState : PluginState :=
  updateAttitudeFromValue
    {| valuePitch := None; valueRoll := Some 0.05; valueYaw := None |}
    EmptyString (start defaultConfig (initialState defaultConfig)).


(** ** The period detector as the specification words it *)

(** The pairs of neighbours of a sequence, in order. *)
Fixpoint consecutive {A : Type} (xs : list A) : list (A * A) :=
  match xs with
  | [] => []
  | a :: rest =>
      match rest with
      | [] => []
      | b :: _ => (a, b) :: consecutive rest
      end
  end.

(** The clock readings of the entries at which the roll has changed sign
    since the entry before. *)
Definition crossingTimes (buffer : list Entry) : list Z :=
  map (fun pair => timestamp (snd pair))
      (filter (fun pair => isZeroCrossing (roll (fst pair)) (roll (snd pair)))
              (consecutive buffer)).

(** The half-periods, in seconds, between consecutive crossings. *)
Definition halfPeriods (times : list Z) : list R :=
  map (fun pair => IZR (snd pair - fst pair) / 1000) (consecutive times).

Definition withinPeriodRange (config : PluginConfig) (seconds : R) : bool :=
  JS.leb (minimumPeriod config) seconds && JS.leb seconds (maximumPeriod config).

(** The full periods accepted in one scan of the buffer. *)
Definition acceptedPeriods (config : PluginConfig) (buffer : list Entry) : list R :=
  map (fun half => 2 * half)
      (filter (withinPeriodRange config) (halfPeriods (crossingTimes buffer))).

(** The arithmetic mean. *)
Definition mean (xs : list R) : R := fold_right Rplus 0 xs / INR (length xs).

(** ** Sample streams *)

(** An attitude object with pitch and roll and no yaw, and its delivery at
    clock reading [now]. *)
Definition sampleValueOf (pitchRad rollRad : R) : AttitudeValue :=
  {| valuePitch := Some pitchRad; valueRoll := Some rollRad; valueYaw := None |}.

Definition sampleTick (pitchRad rollRad : R) (now : Z) : Event :=
  AttitudeEvent (sampleValueOf pitchRad rollRad) EmptyString now now.

Definition sampleAttitude (pitchRad rollRad : R) : Attitude.t :=
  Attitude.mk (Some pitchRad) (Some rollRad) None (Some EmptyString).

(** An entry as a tick builds it from a pitch and a roll, without yaw. *)
Definition sampleEntry (pitchRad rollRad : R) (now : Z) : Entry :=
  AttitudeBufferEntry.mk pitchRad rollRad None now
    (JS.hypot (pitchRad * (180 / PI)) (rollRad * (180 / PI))).

(** The state of an engine with a capacity of 30 before the first tick
    that reaches ten entries: nothing but the last attitude, the heading
    and the buffer has changed since the start. *)
Definition warmState (config : PluginConfig) (heading : option R)
    (attitude : Attitude.t) (buffer : list Entry) : PluginState :=
  {| lastAttitude := attitude;
     lastHeading := heading;
     attitudeBuffer := buffer;
     maxBufferSize := 30;
     periodState := {| periods := []; lastZeroCrossing := None |};
     directionState :=
       {| directionBuffer := []; lastDirection := None; directionConfidence := 0 |};
     currentConfig := config;
     vesselLengthFromDesign := None |}.

(** Ten samples two seconds apart: the roll goes positive at 2 s and
    negative again at 18 s. *)
Definition slowRollStream : list Event :=
  [ sampleTick 0 (-0.1) 0; sampleTick 0 0.1 2000; sampleTick 0 0.1 4000;
    sampleTick 0 0.1 6000; sampleTick 0 0.1 8000; sampleTick 0 0.1 10000;
    sampleTick 0 0.1 12000; sampleTick 0 0.1 14000; sampleTick 0 0.1 16000;
    sampleTick 0 (-0.1) 18000 ].

(** The buffer after the ten samples of [slowRollStream]. *)
Definition slowRollBuffer : list Entry :=
  [ sampleEntry 0 (-0.1) 0; sampleEntry 0 0.1 2000; sampleEntry 0 0.1 4000;
    sampleEntry 0 0.1 6000; sampleEntry 0 0.1 8000; sampleEntry 0 0.1 10000;
    sampleEntry 0 0.1 12000; sampleEntry 0 0.1 14000; sampleEntry 0 0.1 16000;
    sampleEntry 0 (-0.1) 18000 ].

(** The periods of a sequence of emitted results. *)
Definition emittedPeriods (outs : list (option SeaStateResults.t))
    : list (option R) :=
  map (fun out => match out with
                  | Some res => SeaStateResults.period res
                  | None => None
                  end)
      outs.

(** ** The motion statistics as the specification words them *)

Definition total (xs : list R) : R := fold_right Rplus 0 xs.

(** Population variance: the mean squared deviation from the mean. *)
Definition populationVariance (xs : list R) : R :=
  total (map (fun x => (x - mean xs) ^ 2) xs) / INR (length xs).

(** The sum over the samples of the product of the pitch and roll
    deviations from their means. *)
Definition covarianceSum (buffer : list Entry) : R :=
  total (map (fun entry =>
                (pitch entry - mean (map pitch buffer))
                * (roll entry - mean (map roll buffer)))
             buffer).

Definition epsilon : R := 1e-10.

(** The cross-correlation with the guard term under the root, as the
    specification states it. *)
Definition guardedCrossCorrelation (buffer : list Entry) : JS.number :=
  let quotient :=
    JS.div (covarianceSum buffer)
           (INR (length buffer)
            * sqrt (populationVariance (map pitch buffer)
                    * populationVariance (map roll buffer) + epsilon)) in
  if JS.isNaN quotient then JS.Fin 0 else quotient.

(** The cross-correlation without a guard term. *)
Definition plainCrossCorrelation (buffer : list Entry) : JS.number :=
  let quotient :=
    JS.div (covarianceSum buffer)
           (INR (length buffer)
            * sqrt (populationVariance (map pitch buffer)
                    * populationVariance (map roll buffer))) in
  if JS.isNaN quotient then JS.Fin 0 else quotient.

(** Pitch and roll swinging together between 0 and 2. *)
Definition inPhaseBuffer : list Entry :=
  [ sampleEntry 0 0 0; sampleEntry 2 2 1000; sampleEntry 0 0 2000;
    sampleEntry 2 2 3000; sampleEntry 0 0 4000; sampleEntry 2 2 5000 ].

(** ** Ranges of the direction outputs *)

Definition inTurn (angle : R) : Prop := 0 <= angle < 2 * PI.






Definition byTime (a b : Entry) : Prop := (timestamp a <= timestamp b)%Z.

(** ** A pitching vessel *)

Definition emittedDirection (out : option SeaStateResults.t) : option R :=
  match out with
  | Some res => SeaStateResults.direction res
  | None => None
  end.


(** A heading, then ten samples a second apart in which only the pitch
    moves. *)
Definition pitchingStream (heading : R) : list Event :=
  [ HeadingEvent heading;
    sampleTick 0.1 0 0; sampleTick (-0.1) 0 1000; sampleTick 0.1 0 2000;
    sampleTick (-0.1) 0 3000; sampleTick 0.1 0 4000; sampleTick (-0.1) 0 5000;
    sampleTick 0.1 0 6000; sampleTick (-0.1) 0 7000; sampleTick 0.1 0 8000;
    sampleTick (-0.1) 0 9000 ].




(** ** Forgetting the yaw *)

Definition eraseYawValue (value : AttitudeValue) : AttitudeValue :=
  {| valuePitch := valuePitch value; valueRoll := valueRoll value;
     valueYaw := None |}.

(** The same event without its yaw. *)
Definition eraseYaw (e : Event) : Event :=
  match e with
  | AttitudeEvent value stamp now later =>
      AttitudeEvent (eraseYawValue value) stamp now later
  | HeadingEvent heading => HeadingEvent heading
  end.

Definition forgetYawEntry (entry : Entry) : Entry :=
  AttitudeBufferEntry.mk (pitch entry) (roll entry) None (timestamp entry)
    (motionMagnitude entry).

(** The same state with every stored yaw removed. *)
Definition forgetYaw (st : PluginState) : PluginState :=
  {| lastAttitude :=
       Attitude.mk (Attitude.pitch (lastAttitude st))
         (Attitude.roll (lastAttitude st)) None
         (Attitude.timestamp (lastAttitude st));
     lastHeading := lastHeading st;
     attitudeBuffer := map forgetYawEntry (attitudeBuffer st);
     maxBufferSize := maxBufferSize st;
     periodState := periodState st;
     directionState := directionState st;
     currentConfig := currentConfig st;
     vesselLengthFromDesign := vesselLengthFromDesign st |}.

(** One sample with the given yaw, then a heading and a second sample
    without yaw. *)
Definition yawStream (yaw : option R) : list Event :=
  [ AttitudeEvent
      {| valuePitch := Some 0.1; valueRoll := Some 0.05; valueYaw := yaw |}
      EmptyString 1000 1000;
    HeadingEvent 1;
    AttitudeEvent sampleValue EmptyString 2000 2001 ].

(** ** Source names *)

(** Strings are read as sequences of code units below 256. *)

Definition dash : ascii := "-"%char.

Definition isDash (c : ascii) : bool := Ascii.eqb c dash.

(** [a-z0-9]. *)
Definition isLowerOrDigit (c : ascii) : bool :=
  let n := nat_of_ascii c in
  ((97 <=? n) && (n <=? 122) || (48 <=? n) && (n <=? 57))%nat.

(** [toLowerCase] on one code unit: the capital letters of ASCII and of
    Latin-1 move down by 32. *)
Definition toLowerCaseChar (c : ascii) : ascii :=
  let n := nat_of_ascii c in
  if ((65 <=? n) && (n <=? 90)
      || (192 <=? n) && (n <=? 222) && negb (n =? 215))%nat
  then ascii_of_nat (n + 32)
  else c.

(** [.replace(/[^a-z0-9]/g, '-')] on one code unit. *)
Definition replaceOther (c : ascii) : ascii :=
  if isLowerOrDigit c then c else dash.

(** [.replace(/-+/g, '-')]: a dash followed by a dash is dropped. *)
Fixpoint collapseDashes (cs : list ascii) : list ascii :=
  match cs with
  | [] => []
  | c :: rest =>
      match rest with
      | [] => [c]
      | d :: _ =>
          if isDash c && isDash d then collapseDashes rest
          else c :: collapseDashes rest
      end
  end.

(** The part [^-+] of the last replacement. *)
Fixpoint dropLeadingDashes (cs : list ascii) : list ascii :=
  match cs with
  | [] => []
  | c :: rest => if isDash c then dropLeadingDashes rest else cs
  end.

(** The part [-+$] of the last replacement. *)
Fixpoint dropTrailingDashes (cs : list ascii) : list ascii :=
  match cs with
  | [] => []
  | c :: rest =>
      match dropTrailingDashes rest with
      | [] => if isDash c then [] else [c]
      | kept => c :: kept
      end
  end.

Definition formatSourceChars (cs : list ascii) : list ascii :=
  dropTrailingDashes
    (dropLeadingDashes
       (collapseDashes (map replaceOther (map toLowerCaseChar cs)))).

(** [formatSourceName] (lines 14-20). *)
Definition formatSourceName (name : string) : string :=
  string_of_list_ascii (formatSourceChars (list_ascii_of_string name)).

(** White space as [trim] sees it among the code units below 256: tab,
    line feed, vertical tab, form feed, carriage return, space and the
    no-break space. *)
Definition isWhiteSpace (c : ascii) : bool :=
  let n := nat_of_ascii c in
  ((9 <=? n) && (n <=? 13) || (n =? 32) || (n =? 160))%nat.

Fixpoint trimStart (cs : list ascii) : list ascii :=
  match cs with
  | [] => []
  | c :: rest => if isWhiteSpace c then trimStart rest else cs
  end.

Fixpoint trimEnd (cs : list ascii) : list ascii :=
  match cs with
  | [] => []
  | c :: rest =>
      match trimEnd rest with
      | [] => if isWhiteSpace c then [] else [c]
      | kept => c :: kept
      end
  end.

(** [s.trim()]. *)
Definition trim (s : string) : string :=
  string_of_list_ascii (trimEnd (trimStart (list_ascii_of_string s))).

(** Truthiness of a string: it is not empty. *)
Definition truthy (s : string) : bool :=
  match s with EmptyString => false | String _ _ => true end.

(** [getVesselBasedSource] (lines 23-32); [None] is an undefined prefix. *)
Definition getVesselBasedSource (configuredPrefix : option string)
    (suffix : string) : string :=
  match configuredPrefix with
  | Some prefix =>
      if truthy prefix && truthy (trim prefix)
      then (formatSourceName prefix ++ "-seastate-" ++ suffix)%string
      else ("seastate-" ++ suffix)%string
  | None => ("seastate-" ++ suffix)%string
  end.

(** The characters a formatted name is made of. *)
Definition isNameChar (c : ascii) : bool := isLowerOrDigit c || isDash c.


Definition allWhiteSpace (s : string) : bool :=
  forallb isWhiteSpace (list_ascii_of_string s).


Fixpoint noAdjacentDashes (cs : list ascii) : bool :=
  match cs with
  | [] => true
  | c :: rest =>
      match rest with
      | [] => true
      | d :: _ => negb (isDash c && isDash d) && noAdjacentDashes rest
      end
  end.


(** ** The emitted delta *)

Module DeltaValue.
Record t : Type := mk {
  path : string;
  value : R
}.
End DeltaValue.

(** The delta handed to [app.handleMessage]: its single update with the
    source, the timestamp and the values. *)
Module Delta.
Record t : Type := mk {
  context : string;
  source : string;
  timestamp : Z;
  values : list DeltaValue.t
}.
End Delta.

(** [emitSeaStateData] (lines 739-793): the delta built from the results;
    [st] is the plugin state the closure reads the source prefix from. *)
Definition emitSeaStateData (st : PluginState) (results : SeaStateResults.t)
    : Delta.t :=
  let values := [DeltaValue.mk "environment.wave.height"
                   (SeaStateResults.waveHeight results)] in
  let values :=
    match SeaStateResults.heave results with
    | Some heave => values ++ [DeltaValue.mk "environment.heave" heave]
    | None => values
    end in
  let values :=
    match SeaStateResults.period results with
    | Some period => values ++ [DeltaValue.mk "environment.wave.period" period]
    | None => values
    end in
  let values :=
    match SeaStateResults.direction results with
    | Some direction =>
        (values ++ [DeltaValue.mk "navigation.wave.direction" direction])
        ++ [DeltaValue.mk "navigation.wave.direction.confidence"
              (SeaStateResults.directionConfidence results)]
    | None => values
    end in
  Delta.mk "vessels.self"
    (getVesselBasedSource (vesselName (currentConfig st)) "derived")
    (SeaStateResults.timestamp results)
    values.

(** The value a delta carries at a path, if any. *)
Definition valueAt (delta : Delta.t) (path : string) : option R :=
  match find (fun v => String.eqb (DeltaValue.path v) path) (Delta.values delta) with
  | Some v => Some (DeltaValue.value v)
  | None => None
  end.

(** ** Starting the plugin *)

(** The options handed to [plugin.start]: every field may be missing. *)
Module PluginOptions.
Record t : Type := mk {
  enabled : option bool;
  waveMultiplier : option R;
  baselineK : option R;
  vesselName : option string;
  updateRate : option R;
  enableHeave : option bool;
  enablePeriod : option bool;
  enableDirection : option bool;
  vesselLength : option R;
  periodBufferSize : option R;
  minimumPeriod : option R;
  maximumPeriod : option R;
  directionSmoothing : option R;
  compassSource : option string
}.
End PluginOptions.

(** [x ?? d]. *)
Definition nullish {A : Type} (x : option A) (d : A) : A :=
  match x with Some v => v | None => d end.

(** [designLength?.value ? designLength.value : null] (line 170): a
    missing or zero length counts as none. *)
Definition designLengthValue (designLength : option R) : option R :=
  match designLength with
  | Some v => if JS.eqb v 0 then None else Some v
  | None => None
  end.

(** Lines 190-202: a configured name that is missing or blank is replaced
    by the vessel name of the server when that is a non-empty string
    ([selfName] is [None] when the server has none, it is not a string or
    the lookup throws). *)
Definition resolveVesselName (configured selfName : option string)
    : option string :=
  let blank :=
    match configured with
    | Some name => negb (truthy name) || negb (truthy (trim name))
    | None => true
    end in
  if blank then
    match selfName with
    | Some name => if truthy name then Some name else configured
    | None => configured
    end
  else configured.

(** The configuration of lines 173-202. *)
Definition buildConfig (options : PluginOptions.t)
    (lengthFromDesign : option R) (selfName : option string) : PluginConfig :=
  {| enabled := nullish (PluginOptions.enabled options) true;
     waveMultiplier := nullish (PluginOptions.waveMultiplier options) 0.5;
     baselineK := nullish (PluginOptions.baselineK options) 0.1;
     vesselName := resolveVesselName (PluginOptions.vesselName options) selfName;
     updateRate := nullish (PluginOptions.updateRate options) 1000;
     enableHeave := nullish (PluginOptions.enableHeave options) true;
     enablePeriod := nullish (PluginOptions.enablePeriod options) true;
     enableDirection := nullish (PluginOptions.enableDirection options) true;
     vesselLength :=
       nullish (PluginOptions.vesselLength options) (nullish lengthFromDesign 12);
     periodBufferSize := nullish (PluginOptions.periodBufferSize options) 30;
     minimumPeriod := nullish (PluginOptions.minimumPeriod options) 2;
     maximumPeriod := nullish (PluginOptions.maximumPeriod options) 20;
     directionSmoothing := nullish (PluginOptions.directionSmoothing options) 0.3;
     compassSource := nullish (PluginOptions.compassSource options) EmptyString |}.

Definition set_vesselLengthFromDesign (l : option R) (st : PluginState)
    : PluginState :=
  {| lastAttitude := lastAttitude st; lastHeading := lastHeading st;
     attitudeBuffer := attitudeBuffer st; maxBufferSize := maxBufferSize st;
     periodState := periodState st; directionState := directionState st;
     currentConfig := currentConfig st;
     vesselLengthFromDesign := l |}.

(** [plugin.start] (lines 165-206), the part before the subscriptions:
    [designLength] and [selfName] are what the server answers for
    [design.length] and [name]. *)
Definition startPlugin (options : PluginOptions.t) (designLength : option R)
    (selfName : option string) (st : PluginState) : PluginState :=
  let st1 := set_vesselLengthFromDesign (designLengthValue designLength) st in
  start (buildConfig options (vesselLengthFromDesign st1) selfName) st1.

(** ** The polling fallback *)

(** The timer callback of lines 226-245: [currentAttitude] and
    [currentHeading] are the values the server holds, [None] when it has
    none.  A heading is stored when it is truthy, that is, not zero. *)
Definition directPoll (currentAttitude : option AttitudeValue)
    (currentHeading : option R) (stamp : string) (now later : Z)
    (st : PluginState) : PluginState * option SeaStateResults.t :=
  let st1 :=
    match currentAttitude with
    | Some value => updateAttitudeFromValue value stamp st
    | None => st
    end in
  let st2 :=
    match currentHeading with
    | Some heading =>
        if JS.eqb heading 0 then st1 else set_lastHeading (Some heading) st1
    | None => st1
    end in
  match currentAttitude with
  | Some _ => calculateSeaState st2 now later
  | None => (st2, None)
  end.

(** One round of the timer, as data. *)
Record Poll : Type := {
  pollAttitude : option AttitudeValue;
  pollHeading : option R;
  pollStamp : string;
  pollNow : Z;
  pollLater : Z
}.

Fixpoint runPolls (st : PluginState) (polls : list Poll)
    : PluginState * list (option SeaStateResults.t) :=
  match polls with
  | [] => (st, [])
  | p :: rest =>
      let (st1, out) :=
        directPoll (pollAttitude p) (pollHeading p) (pollStamp p) (pollNow p)
          (pollLater p) st in
      let (st2, outs) := runPolls st1 rest in
      (st2, out :: outs)
  end.

(** ** Ranges of the emitted period *)



(** The slow roll seen from a vessel heeled by 0.2 rad: the roll swings
    between 0.1 and 0.3 and never changes sign. *)
Definition heeledBuffer : list Entry :=
  [ sampleEntry 0 0.1 0; sampleEntry 0 0.3 2000; sampleEntry 0 0.3 4000;
    sampleEntry 0 0.3 6000; sampleEntry 0 0.3 8000; sampleEntry 0 0.3 10000;
    sampleEntry 0 0.3 12000; sampleEntry 0 0.3 14000; sampleEntry 0 0.3 16000;
    sampleEntry 0 0.1 18000 ].

(** ** Peaks *)

(** A strict local maximum at an interior index. *)
Definition isPeak (values : list R) (i : nat) : Prop :=
  (1 <= i)%nat /\ (i + 1 < length values)%nat
  /\ nth (i - 1) values 0 < nth i values 0
  /\ nth (i + 1) values 0 < nth i values 0.

(** The distance by index between a roll peak and a pitch peak. *)
Definition peakDistance (pitchPeak rollPeak : nat) : Z :=
  Z.abs (Z.of_nat rollPeak - Z.of_nat pitchPeak).

(** ** Restarting *)

(** Options that leave every setting to its default. *)
Definition noOptions : PluginOptions.t :=
  PluginOptions.mk None None None None None None None None None None None None
    None None.

(** Options that only shorten the buffered span to [seconds]. *)
Definition shortSpanOptions (seconds : R) : PluginOptions.t :=
  PluginOptions.mk None None None None None None None None None (Some seconds)
    None None None None.

(** ** Polling and subscriptions *)

(** The events a round of the timer amounts to: the heading, when the
    server holds one that is not zero, and then the attitude, when the
    server holds one. *)
Definition pollEvents (p : Poll) : list Event :=
  match pollHeading p with
  | Some heading => if JS.eqb heading 0 then [] else [HeadingEvent heading]
  | None => []
  end
  ++ match pollAttitude p with
     | Some value =>
         [AttitudeEvent value (pollStamp p) (pollNow p) (pollLater p)]
     | None => []
     end.

(** The results that were handed to [emitSeaStateData], in order. *)
Definition emitted (outs : list (option SeaStateResults.t))
    : list SeaStateResults.t :=
  flat_map (fun out => match out with Some res => [res] | None => [] end) outs.

Definition directionAbsent (out : option SeaStateResults.t) : Prop :=
  match out with
  | Some res => SeaStateResults.direction res = None
  | None => True
  end.

Definition zeroOrNoHeading (p : Poll) : Prop :=
  pollHeading p = None \/ pollHeading p = Some 0.

(** A round of the timer on a vessel that heads due magnetic north. *)
Definition northPoll (now : Z) : Poll :=
  {| pollAttitude := Some (sampleValueOf 0.1 0); pollHeading := Some 0;
     pollStamp := EmptyString; pollNow := now; pollLater := now |}.

(** ** Histories *)

(** The last element of an array, if any. *)
Fixpoint newest {A : Type} (xs : list A) : option A :=
  match xs with
  | [] => None
  | [x] => Some x
  | _ :: rest => newest rest
  end.

Definition carriesDirection (out : option SeaStateResults.t) : bool :=
  match emittedDirection out with Some _ => true | None => false end.

(** How many of the results carry a direction. *)
Definition directionCount (outs : list (option SeaStateResults.t)) : nat :=
  length (filter carriesDirection outs).

Definition emittedConfidence (out : option SeaStateResults.t) : option R :=
  match out with
  | Some res => Some (SeaStateResults.directionConfidence res)
  | None => None
  end.

Definition periodAndDirectionAbsent (out : option SeaStateResults.t) : Prop :=
  match out with
  | Some res =>
      SeaStateResults.period res = None
      /\ SeaStateResults.direction res = None
  | None => True
  end.

(** ** Smoothing and confidence *)

Definition directionNoneOr (d : R) (out : option SeaStateResults.t) : Prop :=
  emittedDirection out = None \/ emittedDirection out = Some d.

(** The default configuration with the smoothing factor set to 0. *)
Definition zeroSmoothingConfig : PluginConfig :=
  {| enabled := true; waveMultiplier := 0.5; baselineK := 0.1;
     vesselName := None; updateRate := 1000; enableHeave := true;
     enablePeriod := true; enableDirection := true; vesselLength := 12;
     periodBufferSize := 30; minimumPeriod := 2; maximumPeriod := 20;
     directionSmoothing := 0; compassSource := EmptyString |}.

(** A started engine that has estimated the direction 1 rad once. *)
Definition onceEstimatedState : PluginState :=
  set_directionState
    {| directionBuffer := [1]; lastDirection := Some 1;
       directionConfidence := 0 |}
    (start zeroSmoothingConfig (initialState zeroSmoothingConfig)).

(** ** What is emitted, and when *)

(** An attitude event gives a result, a heading event none. *)
Definition emitsForAttitude (e : Event) (out : option SeaStateResults.t)
    : Prop :=
  match e with
  | AttitudeEvent _ _ _ _ => out <> None
  | HeadingEvent _ => out = None
  end.

Definition attitudeKnown (st : PluginState) : Prop :=
  Attitude.pitch (lastAttitude st) <> None
  /\ Attitude.roll (lastAttitude st) <> None.

(** An attitude object without any number, as the server may deliver it. *)
Definition emptyValue : AttitudeValue :=
  {| valuePitch := None; valueRoll := None; valueYaw := None |}.

(** ** Settings the engine does not read *)

(** The configuration with the settings blanked that no tick reads:
    [enabled], [baselineK], [updateRate], [periodBufferSize] and
    [compassSource]. *)
Definition engineSettings (c : PluginConfig) : PluginConfig :=
  {| enabled := true; waveMultiplier := waveMultiplier c; baselineK := 0;
     vesselName := vesselName c; updateRate := 0;
     enableHeave := enableHeave c; enablePeriod := enablePeriod c;
     enableDirection := enableDirection c; vesselLength := vesselLength c;
     periodBufferSize := 0; minimumPeriod := minimumPeriod c;
     maximumPeriod := maximumPeriod c;
     directionSmoothing := directionSmoothing c;
     compassSource := EmptyString |}.

Definition withEngineSettings (st : PluginState) : PluginState :=
  {| lastAttitude := lastAttitude st; lastHeading := lastHeading st;
     attitudeBuffer := attitudeBuffer st; maxBufferSize := maxBufferSize st;
     periodState := periodState st; directionState := directionState st;
     currentConfig := engineSettings (currentConfig st);
     vesselLengthFromDesign := vesselLengthFromDesign st |}.

(** ** The combined axis *)

Definition sameMotion (p r m : R) (entry : Entry) : Prop :=
  pitch entry = p /\ roll entry = r /\ motionMagnitude entry = m.

(** A motion statistics record of a combined motion. *)
Definition combinedStats : MotionStatistics :=
  {| pitchVariance := 1; rollVariance := 1; crossCorrelation := JS.Fin 0;
     dominantMotionAxis := AxisCombined; motionPhaseShift := 0 |}.

(** Ten entries with the same pitch and roll. *)
Definition steadyBuffer : list Entry :=
  [ sampleEntry 0.1 0.1 0; sampleEntry 0.1 0.1 1000; sampleEntry 0.1 0.1 2000;
    sampleEntry 0.1 0.1 3000; sampleEntry 0.1 0.1 4000; sampleEntry 0.1 0.1 5000;
    sampleEntry 0.1 0.1 6000; sampleEntry 0.1 0.1 7000; sampleEntry 0.1 0.1 8000;
    sampleEntry 0.1 0.1 9000 ].

(** * Properties *)

(** ** Comparisons *)

Lemma ltb_true (x y : R) : x < y -> JS.ltb x y = true.
Proof. intro H. unfold JS.ltb. destruct (Rlt_dec x y); [reflexivity | contradiction]. Qed.

Lemma ltb_false (x y : R) : y <= x -> JS.ltb x y = false.
Proof. intro H. unfold JS.ltb. destruct (Rlt_dec x y); [lra | reflexivity]. Qed.

Lemma leb_true (x y : R) : x <= y -> JS.leb x y = true.
Proof. intro H. unfold JS.leb. destruct (Rle_dec x y); [reflexivity | contradiction]. Qed.

Lemma leb_false (x y : R) : y < x -> JS.leb x y = false.
Proof. intro H. unfold JS.leb. destruct (Rle_dec x y); [lra | reflexivity]. Qed.

Lemma eqb_true (x y : R) : x = y -> JS.eqb x y = true.
Proof. intro H. unfold JS.eqb. destruct (Req_dec_T x y); [reflexivity | contradiction]. Qed.

Lemma eqb_false (x y : R) : x <> y -> JS.eqb x y = false.
Proof. intro H. unfold JS.eqb. destruct (Req_dec_T x y); [contradiction | reflexivity]. Qed.

Lemma ltb_iff (x y : R) : JS.ltb x y = true <-> x < y.
Proof. unfold JS.ltb. destruct (Rlt_dec x y); split; intros; try assumption; try reflexivity; try discriminate; contradiction. Qed.

Lemma leb_iff (x y : R) : JS.leb x y = true <-> x <= y.
Proof. unfold JS.leb. destruct (Rle_dec x y); split; intros; try assumption; try reflexivity; try discriminate; contradiction. Qed.

(** Decides the comparisons of a closed term one by one. *)
Ltac js_compare :=
  repeat
    (first
       [ rewrite ltb_true by lra
       | rewrite ltb_false by lra
       | rewrite leb_true by lra
       | rewrite leb_false by lra
       | rewrite eqb_true by lra
       | rewrite eqb_false by lra ]).

(** ** Heave *)

(** C9: the heave computation returns the vessel length times the sine of
    the pitch, for every pitch and length; a level vessel has no heave. *)
Theorem calculateHeave_exact :
  forall pitchRad vesselLength : R,
    calculateHeave pitchRad vesselLength = vesselLength * sin pitchRad
    /\ calculateHeave 0 vesselLength = 0.
Proof.
  intros pitchRad L. unfold calculateHeave. split; [reflexivity |].
  rewrite sin_0. ring.
Qed.

(** ** Ticks without attitude *)

(** The early return of lines 656-659. *)
Lemma calculateSeaState_early_return (st : PluginState) (now later : Z) :
  Attitude.pitch (lastAttitude st) = None
  \/ Attitude.roll (lastAttitude st) = None ->
  calculateSeaState st now later = (st, None).
Proof.
  intros [H | H]; unfold calculateSeaState; rewrite H.
  - reflexivity.
  - destruct (Attitude.pitch (lastAttitude st)); reflexivity.
Qed.

(** C7: when the last known pitch or roll is missing, a tick leaves the
    whole state as it was and hands nothing to the emitter. *)
Theorem calculateSeaState_without_attitude :
  forall (st : PluginState) (now later : Z),
    Attitude.pitch (lastAttitude st) = None
    \/ Attitude.roll (lastAttitude st) = None ->
    calculateSeaState st now later = (st, None)
    /\ attitudeBuffer (fst (calculateSeaState st now later)) = attitudeBuffer st
    /\ periodState (fst (calculateSeaState st now later)) = periodState st
    /\ directionState (fst (calculateSeaState st now later)) = directionState st
    /\ snd (calculateSeaState st now later) = None.
Proof.
  intros st now later H.
  destruct (calculateSeaState st now later) as [st' out] eqn:Htick.
  rewrite calculateSeaState_early_return in Htick by exact H.
  injection Htick as <- <-. repeat split; reflexivity.
Qed.

(** An engine that has received a roll but never a pitch: a tick does
    nothing. *)
Lemma calculateSeaState_without_attitude_witness :
  (Attitude.pitch (lastAttitude rollOnlyState) = None
   \/ Attitude.roll (lastAttitude rollOnlyState) = None)
  /\ calculateSeaState rollOnlyState 1000 1001 = (rollOnlyState, None).
Proof.
  split.
  - left. reflexivity.
  - exact (proj1 (calculateSeaState_without_attitude rollOnlyState 1000 1001
                    (or_introl eq_refl))).
Defined.

(** ** What each stage leaves untouched *)

Lemma set_periodState_same (st : PluginState) :
  set_periodState (periodState st) st = st.
Proof. destruct st; reflexivity. Qed.

Lemma set_directionState_same (st : PluginState) :
  set_directionState (directionState st) st = st.
Proof. destruct st; reflexivity. Qed.

Lemma calculatePeriod_shape (st : PluginState) :
  exists ps, fst (calculatePeriod st) = set_periodState ps st.
Proof.
  unfold calculatePeriod.
  repeat match goal with
         | |- context [if ?c then _ else _] => destruct c
         end;
    cbn [fst];
    first [ exists (periodState st); symmetry; apply set_periodState_same
          | eexists; reflexivity ].
Qed.

Lemma calculateAbsoluteWaveDirection_shape
    (st : PluginState) (buffer : list Entry) (stats : MotionStatistics) :
  exists ds,
    fst (calculateAbsoluteWaveDirection st buffer stats) = set_directionState ds st.
Proof.
  unfold calculateAbsoluteWaveDirection.
  destruct (lastHeading st);
    [destruct (calculateRelativeWaveDirection buffer stats) |];
    cbn [fst];
    first [ exists (directionState st); symmetry; apply set_directionState_same
          | eexists; reflexivity ].
Qed.

(** A tick that has pitch and roll appends one entry to the buffer and
    otherwise touches only the period and direction states. *)
Lemma calculateSeaState_shape
    (st : PluginState) (now later : Z) (lastPitch lastRoll : R) :
  Attitude.pitch (lastAttitude st) = Some lastPitch ->
  Attitude.roll (lastAttitude st) = Some lastRoll ->
  exists ps ds res,
    calculateSeaState st now later
    = (set_directionState ds
         (set_periodState ps
            (set_attitudeBuffer
               (JS.pushShift (maxBufferSize st) (attitudeBuffer st)
                  (entryOf st lastPitch lastRoll now)) st)),
       Some res).
Proof.
  intros Hp Hr. unfold calculateSeaState. rewrite Hp, Hr.
  fold (entryOf st lastPitch lastRoll now).
  set (st1 := set_attitudeBuffer _ st).
  assert (Hper : exists ps r,
             (if enablePeriod (currentConfig st1)
                 && (10 <=? length (attitudeBuffer st1))%nat
              then calculatePeriod st1 else (st1, None))
             = (set_periodState ps st1, r)).
  { destruct (enablePeriod (currentConfig st1)
              && (10 <=? length (attitudeBuffer st1))%nat).
    - destruct (calculatePeriod_shape st1) as [ps Hps].
      exists ps, (snd (calculatePeriod st1)).
      rewrite <- Hps. apply surjective_pairing.
    - exists (periodState st1), None. now rewrite set_periodState_same. }
  destruct Hper as (ps & r & ->).
  set (st2 := set_periodState ps st1).
  assert (Hdir : exists ds d,
             (if enableDirection (currentConfig st1)
                 && (10 <=? length (attitudeBuffer st2))%nat
              then calculateAbsoluteWaveDirection st2 (attitudeBuffer st2)
                     (calculateMotionStatistics st2 (attitudeBuffer st2))
              else (st2, None))
             = (set_directionState ds st2, d)).
  { destruct (enableDirection (currentConfig st1)
              && (10 <=? length (attitudeBuffer st2))%nat).
    - destruct (calculateAbsoluteWaveDirection_shape st2 (attitudeBuffer st2)
                  (calculateMotionStatistics st2 (attitudeBuffer st2)))
        as [ds Hds].
      eexists ds, _. rewrite <- Hds. apply surjective_pairing.
    - exists (directionState st2), None. now rewrite set_directionState_same. }
  destruct Hdir as (ds & d & ->).
  eexists ps, ds, _. reflexivity.
Qed.

(** ** The sample buffer *)

Lemma ceil_nonneg (x : R) : 0 <= x -> (0 <= JS.ceil x)%Z.
Proof.
  intro Hx. unfold JS.ceil.
  destruct (archimed (- x)) as [_ Hup].
  assert (H1 : IZR (up (- x)) <= 1) by lra.
  apply le_IZR in H1. lia.
Qed.

Lemma pushShift_length {A : Type} (bound : Z) (xs : list A) (x : A) :
  (0 <= bound)%Z ->
  (Z.of_nat (length xs) <= bound)%Z ->
  (Z.of_nat (length (JS.pushShift bound xs x)) <= bound)%Z.
Proof.
  intros H0 Hlen. unfold JS.pushShift.
  destruct (Z.ltb_spec bound (Z.of_nat (length (xs ++ [x])))) as [Hlt | Hge].
  - rewrite length_app in Hlt. cbn [length] in Hlt.
    destruct xs as [| y ys]; cbn [app tl length] in *; [lia |].
    rewrite length_app. cbn [length]. lia.
  - exact Hge.
Qed.

Lemma pushShift_full {A : Type} (bound : Z) (xs : list A) (x : A) :
  Z.of_nat (length xs) = bound ->
  JS.pushShift bound xs x = tl (xs ++ [x]).
Proof.
  intro H. unfold JS.pushShift.
  destruct (Z.ltb_spec bound (Z.of_nat (length (xs ++ [x])))) as [Hlt | Hge].
  - reflexivity.
  - rewrite length_app in Hge. cbn [length] in Hge. lia.
Qed.

Lemma pushShift_room {A : Type} (bound : Z) (xs : list A) (x : A) :
  (Z.of_nat (length xs) < bound)%Z ->
  JS.pushShift bound xs x = xs ++ [x].
Proof.
  intro H. unfold JS.pushShift.
  destruct (Z.ltb_spec bound (Z.of_nat (length (xs ++ [x])))) as [Hlt | Hge].
  - rewrite length_app in Hlt. cbn [length] in Hlt. lia.
  - reflexivity.
Qed.

Lemma byTime_snoc (buffer : list Entry) (e : Entry) :
  StronglySorted byTime buffer ->
  Forall (fun a => byTime a e) buffer ->
  StronglySorted byTime (buffer ++ [e]).
Proof.
  induction 1 as [| a l Hl IH Ha]; intro Hall; cbn [app].
  - repeat constructor.
  - inversion Hall; subst. constructor.
    + apply IH. assumption.
    + apply Forall_app. split; [assumption | repeat constructor; assumption].
Qed.

Lemma byTime_tl (buffer : list Entry) :
  StronglySorted byTime buffer -> StronglySorted byTime (tl buffer).
Proof. destruct 1; [constructor | assumption]. Qed.

Lemma pushShift_ordered (bound : Z) (buffer : list Entry) (e : Entry) :
  StronglySorted byTime buffer ->
  Forall (fun a => byTime a e) buffer ->
  StronglySorted byTime (JS.pushShift bound buffer e).
Proof.
  intros Hs Hall. unfold JS.pushShift.
  destruct (bound <? _)%Z; [apply byTime_tl |]; now apply byTime_snoc.
Qed.

Lemma pushShift_incl {A : Type} (bound : Z) (xs : list A) (x y : A) :
  In y (JS.pushShift bound xs x) -> In y xs \/ y = x.
Proof.
  unfold JS.pushShift.
  assert (Hin : In y (xs ++ [x]) -> In y xs \/ y = x).
  { intro H. apply in_app_or in H. destruct H as [H | [H | []]]; auto. }
  destruct (bound <? _)%Z; [| exact Hin].
  intro H. apply Hin. destruct (xs ++ [x]); [exact H | right; exact H].
Qed.

(** The buffer of a state after an event. *)
Lemma handleEvent_buffer (st : PluginState) (e : Event) :
  let st' := fst (handleEvent st e) in
  maxBufferSize st' = maxBufferSize st
  /\ currentConfig st' = currentConfig st
  /\ (attitudeBuffer st' = attitudeBuffer st
      \/ exists value stamp now later lastPitch lastRoll,
           e = AttitudeEvent value stamp now later
           /\ attitudeBuffer st'
              = JS.pushShift (maxBufferSize st) (attitudeBuffer st)
                  (entryOf (updateAttitudeFromValue value stamp st)
                     lastPitch lastRoll now)).
Proof.
  destruct e as [value stamp now later | heading]; cbn [handleEvent].
  - set (st1 := updateAttitudeFromValue value stamp st).
    destruct (Attitude.pitch (lastAttitude st1)) as [p |] eqn:Hp.
    + destruct (Attitude.roll (lastAttitude st1)) as [r |] eqn:Hr.
      * destruct (calculateSeaState_shape st1 now later p r Hp Hr)
          as (ps & ds & res & ->).
        cbn. repeat split. right. exists value, stamp, now, later, p, r.
        split; reflexivity.
      * rewrite calculateSeaState_early_return by (right; exact Hr).
        cbn. auto.
    + rewrite calculateSeaState_early_return by (left; exact Hp).
      cbn. auto.
  - cbn. auto.
Qed.

Lemma run_cons (st : PluginState) (e : Event) (events : list Event) :
  fst (run st (e :: events)) = fst (run (fst (handleEvent st e)) events).
Proof.
  cbn [run]. destruct (handleEvent st e) as [st1 out]. cbn [fst].
  destruct (run st1 events) as [st2 outs]. reflexivity.
Qed.

Lemma run_bounded (events : list Event) (st : PluginState) :
  (0 <= maxBufferSize st)%Z ->
  (Z.of_nat (length (attitudeBuffer st)) <= maxBufferSize st)%Z ->
  let st' := fst (run st events) in
  maxBufferSize st' = maxBufferSize st
  /\ currentConfig st' = currentConfig st
  /\ (Z.of_nat (length (attitudeBuffer st')) <= maxBufferSize st')%Z.
Proof.
  revert st. induction events as [| e events IH]; intros st H0 Hlen.
  - cbn. auto.
  - cbn zeta. rewrite run_cons.
    destruct (handleEvent_buffer st e) as (Hm & Hc & Hb).
    destruct (IH (fst (handleEvent st e))) as (Hm' & Hc' & Hb').
    + rewrite Hm. exact H0.
    + rewrite Hm. destruct Hb as [-> | (v & s & n & l & p & r & _ & ->)].
      * exact Hlen.
      * apply pushShift_length; assumption.
    + rewrite Hm', Hc', Hm, Hc. repeat split. rewrite <- Hm, <- Hm'. exact Hb'.
Qed.

Lemma run_ordered (events : list Event) (st : PluginState) :
  StronglySorted byTime (attitudeBuffer st) ->
  Forall (fun t => Forall (fun a => (timestamp a <= t)%Z) (attitudeBuffer st))
         (tickTimes events) ->
  StronglySorted Z.le (tickTimes events) ->
  StronglySorted byTime (attitudeBuffer (fst (run st events))).
Proof.
  revert st. induction events as [| e events IH]; intros st Hs Hall Hev.
  - exact Hs.
  - rewrite run_cons.
    destruct (handleEvent_buffer st e) as (_ & _ & Hb).
    destruct Hb as [Heq | (v & s & n & l & p & r & -> & Heq)].
    + apply IH.
      * rewrite Heq. exact Hs.
      * rewrite Heq. destruct e; cbn [tickTimes flat_map app] in Hall.
        -- inversion Hall; assumption.
        -- exact Hall.
      * destruct e; cbn [tickTimes flat_map app] in Hev.
        -- inversion Hev; assumption.
        -- exact Hev.
    + cbn [tickTimes flat_map app] in Hall, Hev.
      inversion Hall as [| ? ? Hn Hrest]; subst.
      inversion Hev as [| ? ? Hev' Hle]; subst.
      apply IH.
      * rewrite Heq. apply pushShift_ordered; [exact Hs |].
        unfold byTime. cbn. exact Hn.
      * rewrite Heq. rewrite Forall_forall in Hrest, Hle |- *.
        intros t Ht. rewrite Forall_forall. intros a Ha.
        apply pushShift_incl in Ha. destruct Ha as [Ha | ->].
        -- specialize (Hrest t Ht). rewrite Forall_forall in Hrest. auto.
        -- cbn. apply Hle. exact Ht.
      * exact Hev'.
Qed.

(** C6: with a capacity derived from a non-negative buffer duration and a
    positive update rate, the buffer of the engine started empty never grows
    past the capacity whatever events arrive, stays ascending by timestamp
    when the clock readings of the ticks do not decrease, and a tick that
    finds the buffer full drops exactly its first (oldest) entry, while a
    tick that finds room drops nothing. *)
Theorem sample_buffer_invariant :
  forall (config : PluginConfig) (events : list Event),
    0 <= periodBufferSize config ->
    0 < updateRate config ->
    let st := fst (run (start config (initialState config)) events) in
    maxBufferSize st
    = JS.ceil (periodBufferSize config * 1000 / updateRate config)
    /\ (Z.of_nat (length (attitudeBuffer st)) <= maxBufferSize st)%Z
    /\ (Sorted Z.le (tickTimes events) -> timeOrdered (attitudeBuffer st))
    /\ (forall value stamp now later lastPitch lastRoll,
          let st1 := updateAttitudeFromValue value stamp st in
          let st2 := fst (handleEvent st (AttitudeEvent value stamp now later)) in
          Attitude.pitch (lastAttitude st1) = Some lastPitch ->
          Attitude.roll (lastAttitude st1) = Some lastRoll ->
          (Z.of_nat (length (attitudeBuffer st)) = maxBufferSize st ->
           attitudeBuffer st2
           = tl (attitudeBuffer st ++ [entryOf st1 lastPitch lastRoll now]))
          /\ ((Z.of_nat (length (attitudeBuffer st)) < maxBufferSize st)%Z ->
              attitudeBuffer st2
              = attitudeBuffer st ++ [entryOf st1 lastPitch lastRoll now])).
Proof.
  intros config events Hsize Hrate st.
  set (st0 := start config (initialState config)).
  assert (Hcap : (0 <= maxBufferSize st0)%Z).
  { cbn. apply ceil_nonneg.
    apply Rmult_le_pos; [lra |]. apply Rlt_le, Rinv_0_lt_compat. exact Hrate. }
  assert (Hlen0 : (Z.of_nat (length (attitudeBuffer st0)) <= maxBufferSize st0)%Z)
    by exact Hcap.
  destruct (run_bounded events st0 Hcap Hlen0) as (Hm & Hc & Hb).
  fold st in Hm, Hc, Hb.
  split; [exact Hm |]. split; [exact Hb |]. split.
  - intro Hsorted. unfold timeOrdered.
    apply StronglySorted_Sorted. subst st. apply run_ordered.
    + constructor.
    + apply Forall_forall. intros t _. constructor.
    + apply Sorted_StronglySorted; [| exact Hsorted].
      intros a b c. apply Z.le_trans.
  - intros value stamp now later p r st1 st2 Hp Hr.
    assert (Hbuf : attitudeBuffer st2
                   = JS.pushShift (maxBufferSize st) (attitudeBuffer st)
                       (entryOf st1 p r now)).
    { subst st2. cbn [handleEvent]. fold st1.
      destruct (calculateSeaState_shape st1 now later p r Hp Hr)
        as (ps & ds & res & ->).
      reflexivity. }
    rewrite Hbuf. split; intro Hfull.
    + apply pushShift_full. exact Hfull.
    + apply pushShift_room. exact Hfull.
Qed.

(** The bound on a short stream under the default configuration. *)
Lemma sample_buffer_invariant_witness :
  0 <= periodBufferSize defaultConfig
  /\ 0 < updateRate defaultConfig
  /\ (Z.of_nat
        (length
           (attitudeBuffer
              (fst (run (start defaultConfig (initialState defaultConfig))
                      shortStream))))
      <= maxBufferSize
           (fst (run (start defaultConfig (initialState defaultConfig))
                   shortStream)))%Z.
Proof.
  assert (H1 : 0 <= periodBufferSize defaultConfig) by (cbn; lra).
  assert (H2 : 0 < updateRate defaultConfig) by (cbn; lra).
  split; [exact H1 |]. split; [exact H2 |].
  exact (proj1 (proj2 (sample_buffer_invariant defaultConfig shortStream H1 H2))).
Defined.

(** ** Ticks without heading *)

Lemma if_same {A : Type} (c : bool) (x : A) : (if c then x else x) = x.
Proof. destruct c; reflexivity. Qed.


Lemma calculatePeriod_lastHeading (st : PluginState) :
  lastHeading (fst (calculatePeriod st)) = lastHeading st.
Proof. destruct (calculatePeriod_shape st) as [ps ->]. reflexivity. Qed.

Lemma calculatePeriod_directionState (st : PluginState) :
  directionState (fst (calculatePeriod st)) = directionState st.
Proof. destruct (calculatePeriod_shape st) as [ps ->]. reflexivity. Qed.

Lemma calculatePeriod_attitudeBuffer (st : PluginState) :
  attitudeBuffer (fst (calculatePeriod st)) = attitudeBuffer st.
Proof. destruct (calculatePeriod_shape st) as [ps ->]. reflexivity. Qed.


Lemma direction_without_heading
    (st : PluginState) (buffer : list Entry) (stats : MotionStatistics) :
  lastHeading st = None ->
  calculateAbsoluteWaveDirection st buffer stats = (st, None).
Proof. intro H. unfold calculateAbsoluteWaveDirection. now rewrite H. Qed.




(** ** The period detector *)

Lemma sum_from (xs : list R) (a : R) :
  fold_left Rplus xs a = a + fold_right Rplus 0 xs.
Proof.
  revert a. induction xs as [| x xs IH]; intro a; cbn.
  - ring.
  - rewrite IH. ring.
Qed.

Lemma sum_mean (xs : list R) : JS.sum xs / INR (length xs) = mean xs.
Proof. unfold JS.sum, mean. rewrite sum_from. f_equal. ring. Qed.

Lemma nth_error_middle {A : Type} (pre : list A) (a : A) (rest : list A) :
  nth_error (pre ++ a :: rest) (length pre) = Some a.
Proof. induction pre; [reflexivity | assumption]. Qed.

Lemma nth_error_middle_next {A : Type} (pre : list A) (a b : A) (rest : list A) :
  nth_error (pre ++ a :: b :: rest) (S (length pre)) = Some b.
Proof. induction pre; [reflexivity | assumption]. Qed.

(** The first loop visits the neighbours in order. *)
Lemma scanZeroCrossings_times (rest pre : list Entry) :
  map ZeroCrossing.time
      (scanZeroCrossings (pre ++ rest) (S (length pre)) (length rest - 1))
  = crossingTimes rest.
Proof.
  revert pre. induction rest as [| a rest IH]; intro pre; [reflexivity |].
  destruct rest as [| b rest]; [reflexivity |].
  cbn [length Nat.sub]. rewrite ?Nat.sub_0_r.
  cbn [scanZeroCrossings Nat.sub]. rewrite ?Nat.sub_0_r.
  rewrite nth_error_middle, nth_error_middle_next.
  specialize (IH (pre ++ [a])).
  rewrite <- app_assoc, length_app in IH. cbn [app length] in IH.
  rewrite Nat.add_1_r in IH. cbn [length Nat.sub] in IH.
  rewrite ?Nat.sub_0_r in IH.
  unfold crossingTimes in *. cbn [consecutive filter fst snd].
  destruct (isZeroCrossing (roll a) (roll b)); cbn [map ZeroCrossing.time];
    rewrite IH; reflexivity.
Qed.

(** The second loop keeps the doubled half-periods that are in range. *)
Lemma scanPeriods_accepted (config : PluginConfig)
    (rest pre : list ZeroCrossing.t) :
  scanPeriods config (pre ++ rest) (S (length pre)) (length rest - 1)
  = map (fun half => 2 * half)
        (filter (withinPeriodRange config)
                (halfPeriods (map ZeroCrossing.time rest))).
Proof.
  revert pre. induction rest as [| a rest IH]; intro pre; [reflexivity |].
  destruct rest as [| b rest]; [reflexivity |].
  cbn [length Nat.sub]. rewrite ?Nat.sub_0_r.
  cbn [scanPeriods Nat.sub]. rewrite ?Nat.sub_0_r.
  rewrite nth_error_middle, nth_error_middle_next.
  specialize (IH (pre ++ [a])).
  rewrite <- app_assoc, length_app in IH. cbn [app length] in IH.
  rewrite Nat.add_1_r in IH. cbn [length Nat.sub] in IH.
  rewrite ?Nat.sub_0_r in IH.
  unfold halfPeriods in *. cbn [map consecutive filter fst snd].
  fold (withinPeriodRange config
          (IZR (ZeroCrossing.time b - ZeroCrossing.time a) / 1000)).
  destruct (withinPeriodRange config _); cbn [map]; rewrite IH;
    [f_equal; ring | reflexivity].
Qed.

Lemma calculatePeriod_currentPeriods (st : PluginState) :
  scanPeriods (currentConfig st)
    (scanZeroCrossings (attitudeBuffer st) 1 (length (attitudeBuffer st) - 1))
    1
    (length (scanZeroCrossings (attitudeBuffer st) 1
               (length (attitudeBuffer st) - 1)) - 1)
  = acceptedPeriods (currentConfig st) (attitudeBuffer st).
Proof.
  pose proof (scanPeriods_accepted (currentConfig st)
                (scanZeroCrossings (attitudeBuffer st) 1
                   (length (attitudeBuffer st) - 1)) []) as Hp.
  pose proof (scanZeroCrossings_times (attitudeBuffer st) []) as Hz.
  cbn [app length] in Hp, Hz. rewrite Hp, Hz. reflexivity.
Qed.

Lemma few_crossings_no_period (config : PluginConfig) (buffer : list Entry) :
  (length (scanZeroCrossings buffer 1 (length buffer - 1)) < 2)%nat ->
  acceptedPeriods config buffer = [].
Proof.
  intro H. unfold acceptedPeriods.
  pose proof (scanZeroCrossings_times buffer []) as Hz.
  cbn [app length] in Hz. rewrite <- Hz.
  destruct (scanZeroCrossings buffer 1 (length buffer - 1)) as [| a [| b l]];
    [reflexivity | reflexivity | cbn in H; lia].
Qed.

(** [calculatePeriod] in terms of the accepted periods of the scan. *)
Lemma calculatePeriod_accepted (st : PluginState) :
  (10 <= length (attitudeBuffer st))%nat ->
  calculatePeriod st
  = match acceptedPeriods (currentConfig st) (attitudeBuffer st) with
    | [] => (st, None)
    | _ :: _ =>
        let history' :=
          JS.pushShift 10 (periods (periodState st))
            (mean (acceptedPeriods (currentConfig st) (attitudeBuffer st))) in
        (set_periodState
           {| periods := history';
              lastZeroCrossing := lastZeroCrossing (periodState st) |} st,
         Some (mean history'))
    end.
Proof.
  intro Hlen. unfold calculatePeriod.
  destruct (Nat.ltb_spec (length (attitudeBuffer st)) 10) as [Hlt | _]; [lia |].
  destruct (Nat.ltb_spec
              (length (scanZeroCrossings (attitudeBuffer st) 1
                         (length (attitudeBuffer st) - 1))) 2) as [Hfew | _].
  - rewrite few_crossings_no_period by exact Hfew. reflexivity.
  - rewrite calculatePeriod_currentPeriods.
    destruct (acceptedPeriods (currentConfig st) (attitudeBuffer st)) as [| x xs].
    + reflexivity.
    + cbn [length Nat.eqb]. cbv zeta. rewrite !sum_mean. reflexivity.
Qed.

Lemma withinPeriodRange_iff (config : PluginConfig) (seconds : R) :
  withinPeriodRange config seconds = true
  <-> minimumPeriod config <= seconds <= maximumPeriod config.
Proof.
  unfold withinPeriodRange. rewrite andb_true_iff, !leb_iff. tauto.
Qed.

(** C3: in a scan of a buffer of at least ten entries, a half-period
    between consecutive crossings is accepted exactly when it is within
    [minimumPeriod, maximumPeriod] and contributes twice its value; with
    nothing accepted the result is absent and the state unchanged;
    otherwise the mean of the accepted values is appended to the period
    history, the oldest value leaving when the history already had ten, and
    the result is the mean of the new history. *)
Theorem calculatePeriod_scan :
  forall st : PluginState,
    (10 <= length (attitudeBuffer st))%nat ->
    let config := currentConfig st in
    let history := periods (periodState st) in
    let accepted := acceptedPeriods config (attitudeBuffer st) in
    (forall full : R,
        In full accepted
        <-> exists half : R,
              In half (halfPeriods (crossingTimes (attitudeBuffer st)))
              /\ minimumPeriod config <= half <= maximumPeriod config
              /\ full = 2 * half)
    /\ (accepted = [] -> calculatePeriod st = (st, None))
    /\ (accepted <> [] ->
        let history' := JS.pushShift 10 history (mean accepted) in
        calculatePeriod st
        = (set_periodState
             {| periods := history';
                lastZeroCrossing := lastZeroCrossing (periodState st) |} st,
           Some (mean history'))
        /\ ((length history < 10)%nat -> history' = history ++ [mean accepted])
        /\ (length history = 10%nat ->
            history' = tl history ++ [mean accepted]
            /\ length history' = 10%nat)).
Proof.
  intros st Hlen config history accepted.
  pose proof (calculatePeriod_accepted st Hlen) as Hcalc.
  fold config accepted history in Hcalc.
  split; [| split].
  - intro full. unfold accepted, acceptedPeriods. rewrite in_map_iff.
    split.
    + intros (half & Hfull & Hin). apply filter_In in Hin.
      destruct Hin as [Hin Hok]. exists half.
      rewrite withinPeriodRange_iff in Hok. auto.
    + intros (half & Hin & Hok & Hfull). exists half. split; [auto |].
      apply filter_In. rewrite withinPeriodRange_iff. auto.
  - intro Hnil. rewrite Hcalc, Hnil. reflexivity.
  - intro Hsome. cbv zeta. split; [| split].
    + rewrite Hcalc. destruct accepted; [contradiction | reflexivity].
    + intro Hroom. apply pushShift_room. lia.
    + intro Hfull. rewrite pushShift_full by lia.
      destruct history as [| h0 hs]; [discriminate |].
      cbn [app tl]. split; [reflexivity |].
      rewrite length_app. cbn [length] in *. lia.
Qed.

(** ** The reported period against the configured range *)

Lemma ceil_IZR (n : Z) : JS.ceil (IZR n) = n.
Proof.
  unfold JS.ceil.
  assert (H : (- n + 1)%Z = up (- IZR n)).
  { apply tech_up; rewrite plus_IZR, opp_IZR; lra. }
  rewrite <- H. lia.
Qed.

(** An engine that buffers thirty seconds at one sample a second starts
    with a capacity of 30. *)
Lemma start_warmState (config : PluginConfig) :
  periodBufferSize config = 30 ->
  updateRate config = 1000 ->
  start config (initialState config)
  = warmState config None (Attitude.mk None None None None) [].
Proof.
  intros Hsize Hrate. unfold start, warmState, set_config, initialState.
  cbn [lastAttitude lastHeading attitudeBuffer periodState directionState
       vesselLengthFromDesign].
  rewrite Hsize, Hrate.
  replace (30 * 1000 / 1000) with (IZR 30) by lra. rewrite ceil_IZR.
  reflexivity.
Qed.

Lemma slowRoll_crossingTimes : crossingTimes slowRollBuffer = [2000; 18000]%Z.
Proof.
  unfold crossingTimes, slowRollBuffer, sampleEntry, isZeroCrossing.
  cbn [consecutive filter map fst snd roll timestamp].
  repeat (js_compare; cbn [andb orb filter map fst snd roll timestamp]).
  reflexivity.
Qed.

Lemma slowRoll_accepted : acceptedPeriods defaultConfig slowRollBuffer = [2 * 16].
Proof.
  unfold acceptedPeriods. rewrite slowRoll_crossingTimes.
  unfold halfPeriods, withinPeriodRange.
  cbn [consecutive map fst snd filter minimumPeriod maximumPeriod defaultConfig].
  change (18000 - 2000)%Z with 16000%Z.
  js_compare. cbn [andb map]. f_equal. lra.
Qed.

Lemma calculatePeriod_slowRoll (st : PluginState) :
  attitudeBuffer st = slowRollBuffer ->
  currentConfig st = defaultConfig ->
  periods (periodState st) = [] ->
  calculatePeriod st
  = (set_periodState
       {| periods := [32]; lastZeroCrossing := lastZeroCrossing (periodState st) |}
       st,
     Some 32).
Proof.
  intros Hbuf Hcfg Hhist.
  rewrite calculatePeriod_accepted by (rewrite Hbuf; cbn; lia).
  rewrite Hbuf, Hcfg, Hhist, slowRoll_accepted. cbv zeta.
  assert (Hmean : mean [2 * 16] = 32) by (unfold mean; cbn; lra).
  rewrite Hmean.
  change (JS.pushShift 10 [] 32) with [32].
  assert (Hmean' : mean [32] = 32) by (unfold mean; cbn; lra).
  rewrite Hmean'. reflexivity.
Qed.

Lemma run_app (events1 events2 : list Event) (st : PluginState) :
  run st (events1 ++ events2)
  = (fst (run (fst (run st events1)) events2),
     snd (run st events1) ++ snd (run (fst (run st events1)) events2)).
Proof.
  revert st. induction events1 as [| e events1 IH]; intro st; cbn [app run].
  - cbn [fst snd app]. apply surjective_pairing.
  - destruct (handleEvent st e) as [st1 out]. rewrite IH.
    destruct (run st1 events1) as [st2 outs]. reflexivity.
Qed.

(** A sample that leaves the buffer shorter than ten entries. *)
Lemma sampleTick_warmup (config : PluginConfig) (heading : option R)
    (attitude : Attitude.t) (buffer : list Entry) (pitchRad rollRad : R)
    (now : Z) :
  Attitude.yaw attitude = None ->
  (length buffer < 9)%nat ->
  exists res,
    handleEvent (warmState config heading attitude buffer)
      (sampleTick pitchRad rollRad now)
    = (warmState config heading (sampleAttitude pitchRad rollRad)
         (buffer ++ [sampleEntry pitchRad rollRad now]),
       Some res)
    /\ SeaStateResults.period res = None
    /\ SeaStateResults.direction res = None.
Proof.
  intros Hyaw Hlen.
  unfold sampleTick, handleEvent, calculateSeaState, updateAttitudeFromValue.
  cbn [warmState set_lastAttitude lastAttitude Attitude.pitch Attitude.roll
       Attitude.yaw sampleValueOf valuePitch valueRoll valueYaw orElse
       attitudeBuffer maxBufferSize set_attitudeBuffer currentConfig].
  rewrite Hyaw. cbn [yawOrUndefined].
  fold (sampleEntry pitchRad rollRad now).
  rewrite pushShift_room by (cbn; lia).
  assert (Hshort : (10 <=? length (buffer ++ [sampleEntry pitchRad rollRad now]))%nat
                   = false).
  { apply Nat.leb_gt. rewrite length_app. cbn [length]. lia. }
  cbn [warmState set_lastAttitude set_attitudeBuffer lastAttitude lastHeading
       attitudeBuffer maxBufferSize periodState directionState currentConfig
       vesselLengthFromDesign].
  rewrite Hshort, andb_false_r.
  cbn [warmState set_lastAttitude set_attitudeBuffer lastAttitude lastHeading
       attitudeBuffer maxBufferSize periodState directionState currentConfig
       vesselLengthFromDesign].
  rewrite Hshort, andb_false_r.
  eexists. repeat split; reflexivity.
Qed.

(** Runs the warm-up ticks of a stream of samples. *)
Ltac warm_up :=
  cbn [run];
  repeat match goal with
         | |- context [handleEvent (warmState ?c ?h ?a ?b) (sampleTick ?p ?r ?n)] =>
             let res := fresh "res" in
             let Hper := fresh "Hper" in
             let Hdir := fresh "Hdir" in
             destruct (sampleTick_warmup c h a b p r n eq_refl ltac:(cbn; lia))
               as (res & -> & Hper & Hdir);
             cbn [app]
         end;
  cbn [fst snd].

(** The tenth roll sample: the scan finds the two crossings. *)
Lemma slowRoll_tenth (attitude : Attitude.t) :
  Attitude.yaw attitude = None ->
  exists st res,
    handleEvent (warmState defaultConfig None attitude (removelast slowRollBuffer))
      (sampleTick 0 (-0.1) 18000)
    = (st, Some res)
    /\ SeaStateResults.period res = Some 32.
Proof.
  intro Hyaw.
  unfold sampleTick, handleEvent, calculateSeaState, updateAttitudeFromValue.
  cbn [warmState set_lastAttitude lastAttitude Attitude.pitch Attitude.roll
       Attitude.yaw sampleValueOf valuePitch valueRoll valueYaw orElse
       attitudeBuffer maxBufferSize set_attitudeBuffer currentConfig].
  rewrite Hyaw. cbn [yawOrUndefined].
  fold (sampleEntry 0 (-0.1) 18000).
  rewrite pushShift_room by (cbn; lia).
  change (removelast slowRollBuffer ++ [sampleEntry 0 (-0.1) 18000])
    with slowRollBuffer.
  cbn [warmState set_lastAttitude set_attitudeBuffer lastAttitude lastHeading
       attitudeBuffer maxBufferSize periodState directionState currentConfig
       vesselLengthFromDesign].
  change (10 <=? length slowRollBuffer)%nat with true.
  cbn [andb enablePeriod defaultConfig].
  match goal with
  | |- context [calculatePeriod ?s] =>
      rewrite (calculatePeriod_slowRoll s eq_refl eq_refl eq_refl)
  end.
  rewrite direction_without_heading by reflexivity.
  rewrite if_same.
  eexists _, _. split; reflexivity.
Qed.

(** C1 (the code at a failing input): the engine started with the default
    configuration, whose longest valid period is 20 s, reports a period of
    32 s on the tenth sample of the slow roll. *)
Theorem period_exceeds_maximumPeriod :
  emittedPeriods
    (snd (run (start defaultConfig (initialState defaultConfig)) slowRollStream))
  = [None; None; None; None; None; None; None; None; None; Some 32]
  /\ minimumPeriod defaultConfig < maximumPeriod defaultConfig
  /\ maximumPeriod defaultConfig < 32.
Proof.
  split; [| cbn; lra].
  rewrite (start_warmState defaultConfig eq_refl eq_refl).
  change slowRollStream
    with ([sampleTick 0 (-0.1) 0; sampleTick 0 0.1 2000; sampleTick 0 0.1 4000;
           sampleTick 0 0.1 6000; sampleTick 0 0.1 8000; sampleTick 0 0.1 10000;
           sampleTick 0 0.1 12000; sampleTick 0 0.1 14000; sampleTick 0 0.1 16000]
          ++ [sampleTick 0 (-0.1) 18000]).
  rewrite run_app. cbn [snd fst].
  warm_up.
  change [sampleEntry 0 (-0.1) 0; sampleEntry 0 0.1 2000; sampleEntry 0 0.1 4000;
          sampleEntry 0 0.1 6000; sampleEntry 0 0.1 8000; sampleEntry 0 0.1 10000;
          sampleEntry 0 0.1 12000; sampleEntry 0 0.1 14000; sampleEntry 0 0.1 16000]
    with (removelast slowRollBuffer).
  destruct (slowRoll_tenth (sampleAttitude 0 0.1) eq_refl)
    as (lastState & lastResult & -> & HlastResult).
  cbn [emittedPeriods map app snd].
  repeat match goal with
         | H : SeaStateResults.period _ = _ |- _ => rewrite H; clear H
         end.
  reflexivity.
Qed.

(** The scan of the slow roll. *)
Lemma calculatePeriod_scan_witness :
  (10 <= length (attitudeBuffer
                   (warmState defaultConfig None (sampleAttitude 0 (-0.1))
                      slowRollBuffer)))%nat
  /\ (acceptedPeriods defaultConfig slowRollBuffer = [] ->
      calculatePeriod
        (warmState defaultConfig None (sampleAttitude 0 (-0.1)) slowRollBuffer)
      = (warmState defaultConfig None (sampleAttitude 0 (-0.1)) slowRollBuffer,
         None)).
Proof.
  assert (H : (10 <= length (attitudeBuffer
                               (warmState defaultConfig None
                                  (sampleAttitude 0 (-0.1)) slowRollBuffer)))%nat)
    by (cbn; lia).
  split; [exact H |].
  exact (proj1 (proj2 (calculatePeriod_scan
                         (warmState defaultConfig None (sampleAttitude 0 (-0.1))
                            slowRollBuffer) H))).
Defined.

Lemma mean_between (xs : list R) (a b : R) :
  xs <> [] -> Forall (fun x => a <= x <= b) xs -> a <= mean xs <= b.
Proof.
  intros Hne Hall. unfold mean.
  assert (Hsum : INR (length xs) * a <= fold_right Rplus 0 xs
                 <= INR (length xs) * b).
  { clear Hne. induction Hall as [| x l Hx Hl IH].
    - cbn. lra.
    - cbn [fold_right]. change (length (x :: l)) with (S (length l)).
      rewrite S_INR. lra. }
  assert (Hn : 0 < INR (length xs)).
  { apply lt_0_INR. destruct xs; [contradiction | cbn; lia]. }
  split.
  - apply Rmult_le_reg_l with (INR (length xs)); [exact Hn |].
    unfold Rdiv. rewrite <- Rmult_assoc, Rinv_r_simpl_m by lra. lra.
  - apply Rmult_le_reg_l with (INR (length xs)); [exact Hn |].
    unfold Rdiv. rewrite <- Rmult_assoc, Rinv_r_simpl_m by lra. lra.
Qed.


(** ** The motion statistics *)

Lemma fold_left_add {A : Type} (f : A -> R) (xs : list A) (a : R) :
  fold_left (fun acc x => acc + f x) xs a = a + total (map f xs).
Proof.
  revert a. induction xs as [| x xs IH]; intro a; cbn.
  - ring.
  - rewrite IH. unfold total. ring.
Qed.

Lemma squaredDeviationSum_total (values : list R) (m : R) :
  squaredDeviationSum values m = total (map (fun x => (x - m) ^ 2) values).
Proof. unfold squaredDeviationSum. rewrite fold_left_add. ring. Qed.

(** The indexed reduction reads the roll of the same sample. *)
Lemma crossProductSum_from (rest : list Entry) (pre : list R) (mp mr a : R) :
  fst (fold_left
         (fun (st : R * nat) p =>
            let (acc, i) := st in
            (acc + (p - mp) * (nth i (pre ++ map roll rest) 0 - mr), S i))
         (map pitch rest) (a, length pre))
  = a + total (map (fun entry => (pitch entry - mp) * (roll entry - mr)) rest).
Proof.
  revert pre a. induction rest as [| e rest IH]; intros pre a.
  - cbn. ring.
  - cbn [map fold_left].
    rewrite app_nth2 by lia. rewrite Nat.sub_diag. cbn [nth].
    specialize (IH (pre ++ [roll e])
                   (a + (pitch e - mp) * (roll e - mr))).
    rewrite <- app_assoc, length_app in IH. cbn [app length] in IH.
    rewrite Nat.add_1_r in IH. rewrite IH.
    unfold total. cbn [fold_right]. ring.
Qed.

Lemma crossProductSum_covarianceSum (buffer : list Entry) :
  crossProductSum (map pitch buffer) (map roll buffer)
    (mean (map pitch buffer)) (mean (map roll buffer))
  = covarianceSum buffer.
Proof.
  unfold crossProductSum, covarianceSum.
  pose proof (crossProductSum_from buffer []
                (mean (map pitch buffer)) (mean (map roll buffer)) 0) as H.
  cbn [app length] in H. rewrite H. ring.
Qed.

(** The cross-correlation field computed by the code. *)
Lemma calculateMotionStatistics_crossCorrelation
    (st : PluginState) (buffer : list Entry) :
  (5 <= length buffer)%nat ->
  crossCorrelation (calculateMotionStatistics st buffer)
  = plainCrossCorrelation buffer.
Proof.
  intro Hlen. unfold calculateMotionStatistics.
  destruct (Nat.ltb_spec (length buffer) 5) as [Hlt | _]; [lia |].
  cbv zeta. cbn [crossCorrelation].
  rewrite !sum_mean, !squaredDeviationSum_total, crossProductSum_covarianceSum.
  unfold plainCrossCorrelation, populationVariance.
  rewrite !length_map. reflexivity.
Qed.

Lemma total_squares_zero (xs : list R) (m : R) :
  total (map (fun x => (x - m) ^ 2) xs) = 0 -> Forall (fun x => x = m) xs.
Proof.
  induction xs as [| x xs IH]; intro H; [constructor |].
  unfold total in *. cbn [map fold_right] in H.
  assert (Hsq : 0 <= (x - m) ^ 2) by (apply pow2_ge_0).
  assert (Hrest : 0 <= fold_right Rplus 0 (map (fun x => (x - m) ^ 2) xs)).
  { clear. induction xs as [| y ys IHy]; cbn [map fold_right]; [lra |].
    pose proof (pow2_ge_0 (y - m)). lra. }
  constructor.
  - assert (H0 : (x - m) ^ 2 = 0) by lra.
    assert (Hx : x - m = 0) by nra. lra.
  - apply IH. lra.
Qed.

Lemma total_squares_nonneg (xs : list R) (m : R) :
  0 <= total (map (fun x => (x - m) ^ 2) xs).
Proof.
  unfold total. induction xs as [| y ys IHy]; cbn [map fold_right]; [lra |].
  pose proof (pow2_ge_0 (y - m)). lra.
Qed.

Lemma populationVariance_nonneg (xs : list R) : 0 <= populationVariance xs.
Proof.
  unfold populationVariance. destruct xs as [| x xs].
  - cbn. unfold total. cbn. lra.
  - apply Rmult_le_pos; [apply total_squares_nonneg |].
    apply Rlt_le, Rinv_0_lt_compat, lt_0_INR. cbn. lia.
Qed.

Lemma populationVariance_zero (xs : list R) :
  xs <> [] -> populationVariance xs = 0 -> Forall (fun x => x = mean xs) xs.
Proof.
  intros Hne H. apply total_squares_zero.
  unfold populationVariance in H.
  assert (Hn : 0 < INR (length xs)).
  { apply lt_0_INR. destruct xs; [contradiction | cbn; lia]. }
  apply Rmult_integral in H. destruct H as [H | H]; [exact H |].
  pose proof (Rinv_0_lt_compat _ Hn). lra.
Qed.

Lemma covarianceSum_flat (buffer : list Entry) :
  buffer <> [] ->
  populationVariance (map pitch buffer) * populationVariance (map roll buffer) = 0 ->
  covarianceSum buffer = 0.
Proof.
  intros Hne H. unfold covarianceSum.
  assert (Hp : map pitch buffer <> [])
    by (destruct buffer; [contradiction | discriminate]).
  assert (Hr : map roll buffer <> [])
    by (destruct buffer; [contradiction | discriminate]).
  assert (Hall : Forall (fun e => (pitch e - mean (map pitch buffer))
                                  * (roll e - mean (map roll buffer)) = 0)
                        buffer).
  { apply Rmult_integral in H. destruct H as [H | H].
    - apply (populationVariance_zero _ Hp) in H. rewrite Forall_map in H.
      eapply Forall_impl; [| exact H]. cbn beta. intros e He.
      rewrite He. ring.
    - apply (populationVariance_zero _ Hr) in H. rewrite Forall_map in H.
      eapply Forall_impl; [| exact H]. cbn beta. intros e He.
      rewrite He. ring. }
  revert Hall. clear.
  generalize (mean (map pitch buffer)) (mean (map roll buffer)).
  intros mp mr Hall.
  induction Hall as [| e l He Hl IH]; unfold total in *; cbn [map fold_right];
    [reflexivity |].
  rewrite He, IH. ring.
Qed.

Lemma div_zero_zero : JS.div 0 0 = JS.NaN.
Proof. unfold JS.div. now rewrite !eqb_true. Qed.

Lemma div_nonzero (a b : R) : b <> 0 -> JS.div a b = JS.Fin (a / b).
Proof. intro H. unfold JS.div. now rewrite eqb_false. Qed.

(** C2 (as the code has it): for a buffer of at least five entries the
    cross-correlation is the sum of the products of the pitch and roll
    deviations divided by N times the root of the product of the two
    population variances, with no guard term under the root; the quotient
    is not-a-number exactly when that product is zero, and is then replaced
    by 0. *)
Theorem crossCorrelation_unguarded :
  forall (st : PluginState) (buffer : list Entry),
    (5 <= length buffer)%nat ->
    let n := INR (length buffer) in
    let varP := populationVariance (map pitch buffer) in
    let varR := populationVariance (map roll buffer) in
    let quotient := JS.div (covarianceSum buffer) (n * sqrt (varP * varR)) in
    crossCorrelation (calculateMotionStatistics st buffer)
    = (if JS.isNaN quotient then JS.Fin 0 else quotient)
    /\ (varP * varR = 0 -> quotient = JS.NaN)
    /\ (varP * varR <> 0 ->
        quotient = JS.Fin (covarianceSum buffer / (n * sqrt (varP * varR)))).
Proof.
  intros st buffer Hlen n varP varR quotient.
  assert (Hne : buffer <> []) by (destruct buffer; [cbn in Hlen; lia | discriminate]).
  split; [| split].
  - rewrite calculateMotionStatistics_crossCorrelation by exact Hlen. reflexivity.
  - intro Hzero. unfold quotient.
    rewrite (covarianceSum_flat buffer Hne Hzero), Hzero, sqrt_0, Rmult_0_r.
    apply div_zero_zero.
  - intro Hpos. unfold quotient. apply div_nonzero.
    assert (Hn : 0 < n) by (apply lt_0_INR; lia).
    pose proof (populationVariance_nonneg (map pitch buffer)) as HP.
    pose proof (populationVariance_nonneg (map roll buffer)) as HR.
    fold varP in HP. fold varR in HR.
    assert (Hprod : 0 < varP * varR).
    { pose proof (Rmult_le_pos _ _ HP HR). lra. }
    pose proof (sqrt_lt_R0 _ Hprod).
    apply Rgt_not_eq. apply Rmult_lt_0_compat; assumption.
Qed.

(** The formula on six samples that swing together. *)
Lemma crossCorrelation_unguarded_witness :
  (5 <= length inPhaseBuffer)%nat
  /\ crossCorrelation
       (calculateMotionStatistics (start defaultConfig (initialState defaultConfig))
          inPhaseBuffer)
     = (if JS.isNaN
             (JS.div (covarianceSum inPhaseBuffer)
                (INR (length inPhaseBuffer)
                 * sqrt (populationVariance (map pitch inPhaseBuffer)
                         * populationVariance (map roll inPhaseBuffer))))
        then JS.Fin 0
        else JS.div (covarianceSum inPhaseBuffer)
               (INR (length inPhaseBuffer)
                * sqrt (populationVariance (map pitch inPhaseBuffer)
                        * populationVariance (map roll inPhaseBuffer)))).
Proof.
  assert (H : (5 <= length inPhaseBuffer)%nat) by (cbn; lia).
  split; [exact H |].
  exact (proj1 (crossCorrelation_unguarded
                  (start defaultConfig (initialState defaultConfig))
                  inPhaseBuffer H)).
Defined.

Lemma inPhase_means :
  mean (map pitch inPhaseBuffer) = 1 /\ mean (map roll inPhaseBuffer) = 1.
Proof.
  unfold mean, inPhaseBuffer, sampleEntry.
  cbn [map pitch roll fold_right length INR]. split; lra.
Qed.

Lemma inPhase_variances :
  populationVariance (map pitch inPhaseBuffer) = 1
  /\ populationVariance (map roll inPhaseBuffer) = 1.
Proof.
  unfold populationVariance.
  destruct inPhase_means as [-> ->].
  unfold total, inPhaseBuffer, sampleEntry.
  cbn [map pitch roll fold_right length INR]. split; lra.
Qed.

Lemma inPhase_covarianceSum : covarianceSum inPhaseBuffer = 6.
Proof.
  unfold covarianceSum. destruct inPhase_means as [-> ->].
  unfold total, inPhaseBuffer, sampleEntry.
  cbn [map pitch roll fold_right]. lra.
Qed.

Lemma inPhase_plain : plainCrossCorrelation inPhaseBuffer = JS.Fin 1.
Proof.
  unfold plainCrossCorrelation.
  destruct inPhase_variances as [-> ->]. rewrite inPhase_covarianceSum.
  rewrite Rmult_1_r, sqrt_1.
  change (INR (length inPhaseBuffer)) with (INR 6).
  rewrite div_nonzero by (cbn [INR]; lra).
  cbn [JS.isNaN]. f_equal. cbn [INR]. lra.
Qed.

Lemma inPhase_guarded :
  guardedCrossCorrelation inPhaseBuffer
  = JS.Fin (6 / (6 * sqrt (1 + epsilon))).
Proof.
  unfold guardedCrossCorrelation.
  destruct inPhase_variances as [-> ->]. rewrite inPhase_covarianceSum.
  rewrite Rmult_1_r.
  change (INR (length inPhaseBuffer)) with (INR 6).
  assert (Hroot : 0 < sqrt (1 + epsilon))
    by (apply sqrt_lt_R0; unfold epsilon; lra).
  rewrite div_nonzero by (cbn [INR]; nra).
  cbn [JS.isNaN]. f_equal. cbn [INR]. f_equal. lra.
Qed.

(** C2 (the claim at a concrete buffer): on six samples with pitch and
    roll swinging together the code returns 1, while the formula with the
    guard term under the root gives less. *)
Lemma crossCorrelation_guard_term_absent :
  (5 <= length inPhaseBuffer)%nat
  /\ crossCorrelation
       (calculateMotionStatistics (start defaultConfig (initialState defaultConfig))
          inPhaseBuffer)
     <> guardedCrossCorrelation inPhaseBuffer.
Proof.
  split; [cbn; lia |].
  rewrite calculateMotionStatistics_crossCorrelation by (cbn; lia).
  rewrite inPhase_plain, inPhase_guarded.
  intro H. injection H as H.
  assert (Hpos : 0 < 1 + epsilon) by (unfold epsilon; lra).
  pose proof (sqrt_lt_R0 _ Hpos) as Hroot.
  pose proof (sqrt_sqrt (1 + epsilon) (Rlt_le _ _ Hpos)) as Hsq.
  assert (Hone : sqrt (1 + epsilon) = 1).
  { assert (H6 : 6 * sqrt (1 + epsilon) <> 0) by lra.
    apply (f_equal (fun x => x * (6 * sqrt (1 + epsilon)))) in H.
    unfold Rdiv in H. rewrite Rmult_assoc, Rinv_l in H by exact H6. lra. }
  rewrite Hone in Hsq. unfold epsilon in Hsq. lra.
Qed.

(** ** Ranges of the direction and of its confidence *)

Lemma atan2_bound (y x : R) : - PI < JS.atan2 y x <= PI.
Proof.
  pose proof PI_RGT_0 as Hpi.
  pose proof (atan_bound (y / x)) as Hat.
  unfold JS.atan2, JS.ltb, JS.leb.
  destruct (Rlt_dec 0 x) as [Hx | Hx]; [lra |].
  destruct (Rlt_dec x 0) as [Hx' | Hx'].
  - destruct (Rle_dec 0 y) as [Hy | Hy].
    + assert (Hq : y / x <= 0).
      { unfold Rdiv. pose proof (Rinv_lt_0_compat x Hx'). nra. }
      assert (Ha : atan (y / x) <= 0).
      { destruct Hq as [Hq | Hq].
        - apply Rlt_le. rewrite <- atan_0. apply atan_increasing. exact Hq.
        - rewrite Hq, atan_0. lra. }
      lra.
    + assert (Hq : 0 < y / x).
      { unfold Rdiv. pose proof (Rinv_lt_0_compat x Hx'). nra. }
      assert (Ha : 0 < atan (y / x)).
      { rewrite <- atan_0. apply atan_increasing. exact Hq. }
      lra.
  - destruct (Rlt_dec 0 y); [lra |]. destruct (Rlt_dec y 0); lra.
Qed.









(** The three stages of a tick that has pitch and roll. *)
Lemma calculateSeaState_stages
    (st : PluginState) (now later : Z) (lastPitch lastRoll : R) :
  Attitude.pitch (lastAttitude st) = Some lastPitch ->
  Attitude.roll (lastAttitude st) = Some lastRoll ->
  let st1 :=
    set_attitudeBuffer
      (JS.pushShift (maxBufferSize st) (attitudeBuffer st)
         (entryOf st lastPitch lastRoll now)) st in
  let periodStage :=
    if enablePeriod (currentConfig st1) && (10 <=? length (attitudeBuffer st1))%nat
    then calculatePeriod st1 else (st1, None) in
  let st2 := fst periodStage in
  let directionStage :=
    if enableDirection (currentConfig st1) && (10 <=? length (attitudeBuffer st2))%nat
    then calculateAbsoluteWaveDirection st2 (attitudeBuffer st2)
           (calculateMotionStatistics st2 (attitudeBuffer st2))
    else (st2, None) in
  exists res,
    calculateSeaState st now later = (fst directionStage, Some res)
    /\ SeaStateResults.period res = snd periodStage
    /\ SeaStateResults.direction res = snd directionStage
    /\ SeaStateResults.directionConfidence res
       = directionConfidence (directionState (fst directionStage)).
Proof.
  intros Hp Hr st1 periodStage st2 directionStage.
  unfold calculateSeaState. rewrite Hp, Hr.
  fold (entryOf st lastPitch lastRoll now). fold st1. fold periodStage.
  subst st2 directionStage.
  destruct periodStage as [st2 period]. cbn [fst snd].
  destruct (if enableDirection (currentConfig st1)
               && (10 <=? length (attitudeBuffer st2))%nat
            then _ else _) as [st3 direction].
  eexists. cbn [fst snd]. repeat split; reflexivity.
Qed.




Lemma run_snd_cons (st : PluginState) (e : Event) (events : list Event) :
  snd (run st (e :: events))
  = snd (handleEvent st e) :: snd (run (fst (handleEvent st e)) events).
Proof.
  cbn [run]. destruct (handleEvent st e) as [st1 out]. cbn [fst snd].
  destruct (run st1 events) as [st2 outs]. reflexivity.
Qed.





(** ** A pitching vessel *)




Lemma calculatePeriod_no_crossing (st : PluginState) :
  crossingTimes (attitudeBuffer st) = [] ->
  calculatePeriod st = (st, None).
Proof.
  intro Hnone. unfold calculatePeriod.
  destruct (length (attitudeBuffer st) <? 10)%nat eqn:Hlen; [reflexivity |].
  apply Nat.ltb_ge in Hlen.
  pose proof (calculatePeriod_accepted st Hlen) as H.
  unfold acceptedPeriods in H. rewrite Hnone in H. cbn in H.
  unfold calculatePeriod in H.
  destruct (Nat.ltb_spec (length (attitudeBuffer st)) 10); [lia | exact H].
Qed.





Lemma ensureRange_within (d : R) : inTurn d -> ensureRange d = d.
Proof.
  intros [H1 H2]. unfold ensureRange.
  rewrite leb_false by exact H2. rewrite ltb_false by exact H1. reflexivity.
Qed.






(** ** Smoothing with factor one *)







(** ** The yaw is stored and never read *)

Lemma pushShift_map {A B : Type} (f : A -> B) (bound : Z) (xs : list A) (x : A) :
  JS.pushShift bound (map f xs) (f x) = map f (JS.pushShift bound xs x).
Proof.
  unfold JS.pushShift.
  change [f x] with (map f [x]). rewrite <- map_app, length_map.
  destruct (bound <? Z.of_nat (length (xs ++ [x])))%Z; [| reflexivity].
  destruct (xs ++ [x]); reflexivity.
Qed.

Lemma scanZeroCrossings_forgetYaw (buffer : list Entry) (n i : nat) :
  scanZeroCrossings (map forgetYawEntry buffer) i n = scanZeroCrossings buffer i n.
Proof.
  revert i. induction n as [| n IH]; intro i; [reflexivity |].
  cbn [scanZeroCrossings]. rewrite !nth_error_map.
  destruct (nth_error buffer (i - 1)) as [before |]; [| reflexivity].
  destruct (nth_error buffer i) as [here |]; [| reflexivity].
  cbn [option_map forgetYawEntry roll timestamp]. rewrite IH. reflexivity.
Qed.

Lemma calculatePeriod_forgetYaw (st : PluginState) :
  calculatePeriod (forgetYaw st)
  = (forgetYaw (fst (calculatePeriod st)), snd (calculatePeriod st)).
Proof.
  unfold calculatePeriod.
  cbn [forgetYaw attitudeBuffer currentConfig periodState].
  rewrite length_map, scanZeroCrossings_forgetYaw.
  repeat match goal with
         | |- context [if ?c then _ else _] => destruct c
         end; reflexivity.
Qed.

Lemma map_pitch_forgetYaw (buffer : list Entry) :
  map pitch (map forgetYawEntry buffer) = map pitch buffer.
Proof. rewrite map_map. reflexivity. Qed.

Lemma map_roll_forgetYaw (buffer : list Entry) :
  map roll (map forgetYawEntry buffer) = map roll buffer.
Proof. rewrite map_map. reflexivity. Qed.

Lemma calculateMotionStatistics_forgetYaw (st : PluginState) (buffer : list Entry) :
  calculateMotionStatistics (forgetYaw st) (map forgetYawEntry buffer)
  = calculateMotionStatistics st buffer.
Proof.
  unfold calculateMotionStatistics.
  rewrite map_pitch_forgetYaw, map_roll_forgetYaw, length_map. reflexivity.
Qed.

Lemma motionVectorSum_forgetYaw (buffer : list Entry) :
  motionVectorSum (map forgetYawEntry buffer) = motionVectorSum buffer.
Proof.
  unfold motionVectorSum. generalize (0, 0).
  induction buffer as [| e buffer IH]; intro s; [reflexivity |].
  cbn [map fold_left]. rewrite IH. reflexivity.
Qed.

Lemma calculateRelativeWaveDirection_forgetYaw
    (buffer : list Entry) (stats : MotionStatistics) :
  calculateRelativeWaveDirection (map forgetYawEntry buffer) stats
  = calculateRelativeWaveDirection buffer stats.
Proof.
  unfold calculateRelativeWaveDirection.
  rewrite length_map, skipn_map, motionVectorSum_forgetYaw. reflexivity.
Qed.

Lemma calculateAbsoluteWaveDirection_forgetYaw
    (st : PluginState) (buffer : list Entry) (stats : MotionStatistics) :
  calculateAbsoluteWaveDirection (forgetYaw st) (map forgetYawEntry buffer) stats
  = (forgetYaw (fst (calculateAbsoluteWaveDirection st buffer stats)),
     snd (calculateAbsoluteWaveDirection st buffer stats)).
Proof.
  unfold calculateAbsoluteWaveDirection.
  rewrite calculateRelativeWaveDirection_forgetYaw.
  cbn [forgetYaw lastHeading].
  destruct (lastHeading st); [| reflexivity].
  destruct (calculateRelativeWaveDirection buffer stats); reflexivity.
Qed.

Lemma calculateSeaState_forgetYaw (st : PluginState) (now later : Z) :
  calculateSeaState (forgetYaw st) now later
  = (forgetYaw (fst (calculateSeaState st now later)),
     snd (calculateSeaState st now later)).
Proof.
  unfold calculateSeaState.
  cbn [forgetYaw lastAttitude Attitude.pitch Attitude.roll Attitude.yaw
       attitudeBuffer maxBufferSize].
  change (yawOrUndefined None) with (@None R).
  destruct (Attitude.pitch (lastAttitude st)) as [p |]; [| reflexivity].
  destruct (Attitude.roll (lastAttitude st)) as [r |]; [| reflexivity].
  set (magnitude := JS.hypot _ _).
  set (entry := AttitudeBufferEntry.mk p r
                  (yawOrUndefined (Attitude.yaw (lastAttitude st))) now magnitude).
  change (AttitudeBufferEntry.mk p r None now magnitude)
    with (forgetYawEntry entry).
  rewrite pushShift_map.
  set (buffer' := JS.pushShift (maxBufferSize st) (attitudeBuffer st) entry).
  change (set_attitudeBuffer (map forgetYawEntry buffer') (forgetYaw st))
    with (forgetYaw (set_attitudeBuffer buffer' st)).
  set (st1 := set_attitudeBuffer buffer' st).
  change (currentConfig (forgetYaw st1)) with (currentConfig st1).
  change (attitudeBuffer (forgetYaw st1)) with (map forgetYawEntry (attitudeBuffer st1)).
  rewrite length_map, calculatePeriod_forgetYaw.
  destruct (enablePeriod (currentConfig st1)
            && (10 <=? length (attitudeBuffer st1))%nat).
  - destruct (calculatePeriod st1) as [st2 period]. cbn [fst snd].
    change (attitudeBuffer (forgetYaw st2)) with (map forgetYawEntry (attitudeBuffer st2)).
    rewrite length_map, calculateMotionStatistics_forgetYaw,
      calculateAbsoluteWaveDirection_forgetYaw.
    destruct (enableDirection (currentConfig st1)
              && (10 <=? length (attitudeBuffer st2))%nat).
    + destruct (calculateAbsoluteWaveDirection st2 (attitudeBuffer st2)
                  (calculateMotionStatistics st2 (attitudeBuffer st2)))
        as [st3 direction].
      reflexivity.
    + reflexivity.
  - change (attitudeBuffer (forgetYaw st1)) with (map forgetYawEntry (attitudeBuffer st1)).
    rewrite length_map, calculateMotionStatistics_forgetYaw,
      calculateAbsoluteWaveDirection_forgetYaw.
    destruct (enableDirection (currentConfig st1)
              && (10 <=? length (attitudeBuffer st1))%nat).
    + destruct (calculateAbsoluteWaveDirection st1 (attitudeBuffer st1)
                  (calculateMotionStatistics st1 (attitudeBuffer st1)))
        as [st3 direction].
      reflexivity.
    + reflexivity.
Qed.

Lemma updateAttitudeFromValue_forgetYaw
    (value : AttitudeValue) (stamp : string) (st : PluginState) :
  updateAttitudeFromValue (eraseYawValue value) stamp (forgetYaw st)
  = forgetYaw (updateAttitudeFromValue value stamp st).
Proof. reflexivity. Qed.

Lemma handleEvent_forgetYaw (st : PluginState) (e : Event) :
  handleEvent (forgetYaw st) (eraseYaw e)
  = (forgetYaw (fst (handleEvent st e)), snd (handleEvent st e)).
Proof.
  destruct e as [value stamp now later | heading]; cbn [handleEvent eraseYaw].
  - rewrite updateAttitudeFromValue_forgetYaw. apply calculateSeaState_forgetYaw.
  - reflexivity.
Qed.

Lemma run_forgetYaw (events : list Event) (st : PluginState) :
  snd (run st events) = snd (run (forgetYaw st) (map eraseYaw events)).
Proof.
  revert st. induction events as [| e events IH]; intro st; [reflexivity |].
  cbn [map]. rewrite !run_snd_cons, handleEvent_forgetYaw. cbn [fst snd].
  rewrite IH. reflexivity.
Qed.

(** C10: two event streams that agree on everything but the yaw of their
    attitude samples make the engine, started from the same configuration,
    emit the same results tick by tick. *)
Theorem yaw_never_read :
  forall (config : PluginConfig) (events1 events2 : list Event),
    map eraseYaw events1 = map eraseYaw events2 ->
    snd (run (start config (initialState config)) events1)
    = snd (run (start config (initialState config)) events2).
Proof.
  intros config events1 events2 Hsame.
  rewrite (run_forgetYaw events1), (run_forgetYaw events2), Hsame.
  reflexivity.
Qed.

(** A stream with a yaw of 0.3 rad and the same stream without yaw. *)
Lemma yaw_never_read_witness :
  map eraseYaw (yawStream (Some 0.3)) = map eraseYaw (yawStream None)
  /\ snd (run (start defaultConfig (initialState defaultConfig))
            (yawStream (Some 0.3)))
     = snd (run (start defaultConfig (initialState defaultConfig))
              (yawStream None)).
Proof.
  split; [reflexivity |].
  apply (yaw_never_read defaultConfig (yawStream (Some 0.3)) (yawStream None)).
  reflexivity.
Defined.

(** * Further properties *)

(** ** Source names *)

Lemma replaceOther_nameChar (c : ascii) : isNameChar (replaceOther c) = true.
Proof.
  unfold replaceOther, isNameChar.
  destruct (isLowerOrDigit c) eqn:H; [rewrite H; reflexivity |].
  apply orb_true_r.
Qed.

Lemma nameChar_fixed (c : ascii) :
  isNameChar c = true -> replaceOther (toLowerCaseChar c) = c.
Proof.
  destruct c as [[] [] [] [] [] [] [] []]; vm_compute; intro H;
    first [reflexivity | discriminate H].
Qed.

Lemma collapseDashes_head (c : ascii) (cs : list ascii) :
  exists rest, collapseDashes (c :: cs) = c :: rest.
Proof.
  revert c. induction cs as [| d cs IH]; intro c.
  - exists []. reflexivity.
  - cbn [collapseDashes]. destruct (isDash c && isDash d) eqn:H.
    + destruct (IH d) as [rest Hrest]. exists rest.
      apply andb_true_iff in H. destruct H as [Hc Hd].
      unfold isDash in Hc, Hd.
      apply Ascii.eqb_eq in Hc, Hd. subst. exact Hrest.
    + eexists. reflexivity.
Qed.

Lemma collapseDashes_noAdjacent (cs : list ascii) :
  noAdjacentDashes (collapseDashes cs) = true.
Proof.
  induction cs as [| c cs IH]; [reflexivity |].
  destruct cs as [| d cs]; [reflexivity |].
  change (collapseDashes (c :: d :: cs))
    with (if isDash c && isDash d then collapseDashes (d :: cs)
          else c :: collapseDashes (d :: cs)).
  destruct (isDash c && isDash d) eqn:H; [exact IH |].
  destruct (collapseDashes_head d cs) as [rest Hrest].
  rewrite Hrest in IH |- *.
  cbn [noAdjacentDashes]. rewrite H. exact IH.
Qed.

Lemma collapseDashes_fixed (cs : list ascii) :
  noAdjacentDashes cs = true -> collapseDashes cs = cs.
Proof.
  induction cs as [| c cs IH]; [reflexivity |].
  destruct cs as [| d cs]; [reflexivity |].
  intro H. cbn [noAdjacentDashes] in H. apply andb_true_iff in H.
  destruct H as [Hcd Hrest].
  change (collapseDashes (c :: d :: cs))
    with (if isDash c && isDash d then collapseDashes (d :: cs)
          else c :: collapseDashes (d :: cs)).
  apply negb_true_iff in Hcd. rewrite Hcd, (IH Hrest). reflexivity.
Qed.

Lemma noAdjacentDashes_tail (c : ascii) (cs : list ascii) :
  noAdjacentDashes (c :: cs) = true -> noAdjacentDashes cs = true.
Proof.
  destruct cs as [| d cs]; [reflexivity |].
  cbn [noAdjacentDashes]. intro H. apply andb_true_iff in H. apply H.
Qed.

Lemma noAdjacentDashes_prefix (front back : list ascii) :
  noAdjacentDashes (front ++ back) = true -> noAdjacentDashes front = true.
Proof.
  induction front as [| c front IH]; [reflexivity |].
  destruct front as [| d front]; [reflexivity |].
  cbn [app noAdjacentDashes]. intro H. apply andb_true_iff in H.
  destruct H as [Hcd Hrest]. rewrite Hcd. apply IH. exact Hrest.
Qed.

Lemma noAdjacentDashes_spec (cs : list ascii) :
  noAdjacentDashes cs = true ->
  forall front back, cs <> front ++ dash :: dash :: back.
Proof.
  intros H front. revert cs H.
  induction front as [| c front IH]; intros cs H back Heq; subst cs.
  - cbn in H. discriminate H.
  - apply noAdjacentDashes_tail in H. exact (IH _ H back eq_refl).
Qed.

Lemma dropLeadingDashes_suffix (cs : list ascii) :
  exists front, cs = front ++ dropLeadingDashes cs.
Proof.
  induction cs as [| c cs IH]; [exists []; reflexivity |].
  cbn [dropLeadingDashes]. destruct (isDash c).
  - destruct IH as [front Hfront]. exists (c :: front).
    cbn [app]. f_equal. exact Hfront.
  - exists []. reflexivity.
Qed.

Lemma dropLeadingDashes_head (cs : list ascii) (c : ascii) (rest : list ascii) :
  dropLeadingDashes cs = c :: rest -> isDash c = false.
Proof.
  induction cs as [| d cs IH]; [discriminate |].
  cbn [dropLeadingDashes]. destruct (isDash d) eqn:Hd; [exact IH |].
  intro H. injection H as <- _. exact Hd.
Qed.

Lemma dropLeadingDashes_fixed (cs : list ascii) :
  (forall c rest, cs = c :: rest -> isDash c = false) ->
  dropLeadingDashes cs = cs.
Proof.
  destruct cs as [| c cs]; [reflexivity |].
  intro H. cbn [dropLeadingDashes]. rewrite (H c cs eq_refl). reflexivity.
Qed.

Lemma dropTrailingDashes_prefix (cs : list ascii) :
  exists back, cs = dropTrailingDashes cs ++ back.
Proof.
  induction cs as [| c cs IH]; [exists []; reflexivity |].
  cbn [dropTrailingDashes]. destruct IH as [back Hback].
  destruct (dropTrailingDashes cs) as [| k kept].
  - destruct (isDash c).
    + exists (c :: cs). reflexivity.
    + exists cs. reflexivity.
  - exists back. cbn [app] in *. f_equal. exact Hback.
Qed.

Lemma dropTrailingDashes_last (cs front : list ascii) (c : ascii) :
  dropTrailingDashes cs = front ++ [c] -> isDash c = false.
Proof.
  revert front. induction cs as [| d cs IH]; intro front.
  - destruct front; discriminate.
  - cbn [dropTrailingDashes].
    destruct (dropTrailingDashes cs) as [| k kept] eqn:Hk.
    + destruct (isDash d) eqn:Hd.
      * destruct front; discriminate.
      * intro H. destruct front as [| f front].
        -- injection H as <-. exact Hd.
        -- destruct front; discriminate.
    + intro H. destruct front as [| f front].
      * discriminate.
      * injection H as _ H. exact (IH front H).
Qed.

Lemma dropTrailingDashes_idempotent (cs : list ascii) :
  dropTrailingDashes (dropTrailingDashes cs) = dropTrailingDashes cs.
Proof.
  induction cs as [| c cs IH]; [reflexivity |].
  cbn [dropTrailingDashes].
  destruct (dropTrailingDashes cs) as [| k kept] eqn:Hk.
  - destruct (isDash c) eqn:Hc; [reflexivity |].
    cbn [dropTrailingDashes]. rewrite Hc. reflexivity.
  - change (dropTrailingDashes (c :: k :: kept))
      with (match dropTrailingDashes (k :: kept) with
            | [] => if isDash c then [] else [c]
            | kept' => c :: kept'
            end).
    rewrite IH. reflexivity.
Qed.

Lemma dropTrailingDashes_head (cs : list ascii) (c : ascii) (rest : list ascii) :
  dropTrailingDashes cs = c :: rest -> exists rest', cs = c :: rest'.
Proof.
  intro H. destruct (dropTrailingDashes_prefix cs) as [back Hback].
  rewrite H in Hback. eexists. exact Hback.
Qed.

(** The shape of the characters of a formatted name. *)
Lemma formatSourceChars_shape (cs : list ascii) :
  Forall (fun c => isNameChar c = true) (formatSourceChars cs)
  /\ noAdjacentDashes (formatSourceChars cs) = true
  /\ (forall c rest, formatSourceChars cs = c :: rest -> isDash c = false)
  /\ (forall front c, formatSourceChars cs = front ++ [c] -> isDash c = false).
Proof.
  unfold formatSourceChars.
  set (replaced := map replaceOther (map toLowerCaseChar cs)).
  set (collapsed := collapseDashes replaced).
  assert (Hall : Forall (fun c => isNameChar c = true) collapsed).
  { assert (Hrep : Forall (fun c => isNameChar c = true) replaced).
    { unfold replaced. rewrite Forall_map. apply Forall_forall.
      intros c _. apply replaceOther_nameChar. }
    clearbody replaced. subst collapsed.
    induction replaced as [| c l IH]; [constructor |].
    inversion Hrep as [| ? ? Hc Hl]; subst. specialize (IH Hl).
    destruct l as [| d l]; [repeat constructor; exact Hc |].
    change (collapseDashes (c :: d :: l))
      with (if isDash c && isDash d then collapseDashes (d :: l)
            else c :: collapseDashes (d :: l)).
    destruct (isDash c && isDash d); [exact IH | constructor; assumption]. }
  pose proof (collapseDashes_noAdjacent replaced) as Hadj. fold collapsed in Hadj.
  clearbody collapsed.
  destruct (dropLeadingDashes_suffix collapsed) as [front Hfront].
  set (led := dropLeadingDashes collapsed) in *.
  destruct (dropTrailingDashes_prefix led) as [back Hback].
  assert (Hall' : Forall (fun c => isNameChar c = true) (dropTrailingDashes led)).
  { rewrite Hfront, Hback in Hall.
    apply Forall_app in Hall. destruct Hall as [_ Hall].
    apply Forall_app in Hall. apply Hall. }
  assert (Hadj' : noAdjacentDashes (dropTrailingDashes led) = true).
  { apply noAdjacentDashes_prefix with back. rewrite <- Hback.
    rewrite Hfront in Hadj. clear -Hadj.
    induction front as [| f front IH]; [exact Hadj |].
    apply IH. eapply noAdjacentDashes_tail. exact Hadj. }
  split; [exact Hall' |]. split; [exact Hadj' |]. split.
  - intros c rest H. apply dropTrailingDashes_head in H.
    destruct H as [rest' H]. eapply dropLeadingDashes_head. exact H.
  - intros fr c H. eapply dropTrailingDashes_last. exact H.
Qed.

Lemma formatSourceChars_fixed (cs : list ascii) :
  Forall (fun c => isNameChar c = true) cs ->
  noAdjacentDashes cs = true ->
  (forall c rest, cs = c :: rest -> isDash c = false) ->
  dropTrailingDashes cs = cs ->
  formatSourceChars cs = cs.
Proof.
  intros Hall Hadj Hhead Hlast. unfold formatSourceChars.
  assert (Hmap : map replaceOther (map toLowerCaseChar cs) = cs).
  { rewrite map_map. clear -Hall.
    induction Hall as [| c l Hc Hl IH]; [reflexivity |].
    cbn [map]. rewrite (nameChar_fixed c Hc), IH. reflexivity. }
  rewrite Hmap, (collapseDashes_fixed cs Hadj),
    (dropLeadingDashes_fixed cs Hhead).
  exact Hlast.
Qed.

(** X1: a formatted source name consists of lower-case letters, digits and
    dashes only, has no two dashes in a row and neither starts nor ends with
    a dash. *)
Theorem formatSourceName_shape :
  forall name : string,
    let out := list_ascii_of_string (formatSourceName name) in
    Forall (fun c => isNameChar c = true) out
    /\ (forall front back, out <> front ++ dash :: dash :: back)
    /\ (forall rest, out <> dash :: rest)
    /\ (forall front, out <> front ++ [dash]).
Proof.
  intros name out. subst out. unfold formatSourceName.
  rewrite list_ascii_of_string_of_list_ascii.
  destruct (formatSourceChars_shape (list_ascii_of_string name))
    as (Hall & Hadj & Hhead & Hlast).
  split; [exact Hall |]. split; [| split].
  - apply noAdjacentDashes_spec. exact Hadj.
  - intros rest H. specialize (Hhead dash rest H). discriminate Hhead.
  - intros front H. specialize (Hlast front dash H). discriminate Hlast.
Qed.

(** X2: formatting is idempotent: a formatted name is left as it is. *)
Theorem formatSourceName_idempotent :
  forall name : string,
    formatSourceName (formatSourceName name) = formatSourceName name.
Proof.
  intro name. unfold formatSourceName.
  rewrite list_ascii_of_string_of_list_ascii. f_equal.
  destruct (formatSourceChars_shape (list_ascii_of_string name))
    as (Hall & Hadj & Hhead & _).
  apply formatSourceChars_fixed; try assumption.
  unfold formatSourceChars. apply dropTrailingDashes_idempotent.
Qed.






Lemma trim_truthy (s : string) : truthy (trim s) = negb (allWhiteSpace s).
Proof.
  unfold trim, allWhiteSpace.
  generalize (list_ascii_of_string s). intro cs.
  induction cs as [| c cs IH]; [reflexivity |].
  cbn [trimStart forallb]. destruct (isWhiteSpace c) eqn:Hc; [exact IH |].
  cbn [andb negb trimEnd]. destruct (trimEnd cs); [rewrite Hc |]; reflexivity.
Qed.





(** ** The emitted delta *)

(** X4: the delta of a tick carries each path at most once; the wave
    height is always there, and heave, period and direction are there with
    their value exactly when the result has them; the confidence is
    published exactly when the direction is, and nothing is published for
    the direction in degrees or the motion magnitude. *)
Theorem emitSeaStateData_values :
  forall (st : PluginState) (results : SeaStateResults.t),
    let delta := emitSeaStateData st results in
    NoDup (map DeltaValue.path (Delta.values delta))
    /\ valueAt delta "environment.wave.height"
       = Some (SeaStateResults.waveHeight results)
    /\ valueAt delta "environment.heave" = SeaStateResults.heave results
    /\ valueAt delta "environment.wave.period" = SeaStateResults.period results
    /\ valueAt delta "navigation.wave.direction"
       = SeaStateResults.direction results
    /\ valueAt delta "navigation.wave.direction.confidence"
       = match SeaStateResults.direction results with
         | Some _ => Some (SeaStateResults.directionConfidence results)
         | None => None
         end
    /\ (forall path,
          valueAt delta path <> None ->
          In path ["environment.wave.height"; "environment.heave";
                   "environment.wave.period"; "navigation.wave.direction";
                   "navigation.wave.direction.confidence"]%string).
Proof.
  intros st results delta. subst delta. unfold emitSeaStateData, valueAt.
  destruct (SeaStateResults.heave results) as [h |];
    destruct (SeaStateResults.period results) as [p |];
    destruct (SeaStateResults.direction results) as [d |];
    cbn [app Delta.values map DeltaValue.path];
    (split;
     [ repeat (apply NoDup_cons; [cbn; intuition discriminate |]);
       apply NoDup_nil
     | repeat split; try reflexivity;
       intros path Hpath; cbn [find DeltaValue.path] in Hpath;
       repeat match type of Hpath with
              | context [String.eqb ?a path] =>
                  let Heq := fresh "Heq" in
                  destruct (String.eqb_spec a path) as [Heq | _];
                  [rewrite <- Heq; cbn; auto 10
                  | cbn [find DeltaValue.path] in Hpath]
              end;
       congruence ]).
Qed.

(** ** The period detector, further *)






Lemma crossingTimes_none (buffer : list Entry) :
  (forall a b, In a buffer -> In b buffer ->
               isZeroCrossing (roll a) (roll b) = false) ->
  crossingTimes buffer = [].
Proof.
  unfold crossingTimes. induction buffer as [| a buffer IH]; intro H;
    [reflexivity |].
  destruct buffer as [| b buffer]; [reflexivity |].
  cbn [consecutive filter fst snd].
  rewrite (H a b) by (cbn; auto).
  apply IH. intros x y Hx Hy. apply H; right; assumption.
Qed.

(** X6: a buffer whose roll stays on one side of zero (a heeled vessel), or
    at zero, gives no period: the result is absent and the state is left as
    it was. *)
Theorem calculatePeriod_one_sided_roll :
  forall st : PluginState,
    Forall (fun e => 0 < roll e) (attitudeBuffer st)
    \/ Forall (fun e => roll e < 0) (attitudeBuffer st)
    \/ Forall (fun e => roll e = 0) (attitudeBuffer st) ->
    calculatePeriod st = (st, None).
Proof.
  intros st H. apply calculatePeriod_no_crossing. apply crossingTimes_none.
  intros a b Ha Hb. unfold isZeroCrossing.
  destruct H as [H | [H | H]]; rewrite Forall_forall in H;
    pose proof (H a Ha) as Hra; pose proof (H b Hb) as Hrb; cbn beta in *.
  - rewrite (ltb_false (roll a) 0), (leb_false (roll b) 0) by lra.
    rewrite andb_false_r. reflexivity.
  - rewrite (leb_false 0 (roll b)), (ltb_false 0 (roll a)) by lra.
    rewrite andb_false_r. reflexivity.
  - rewrite (ltb_false (roll a) 0), (ltb_false 0 (roll a)) by lra.
    reflexivity.
Qed.

(** The slow roll lifted by a heel of 0.2 rad to starboard. *)
Lemma calculatePeriod_one_sided_roll_witness :
  Forall (fun e => 0 < roll e)
         (attitudeBuffer
            (warmState defaultConfig None (sampleAttitude 0 0.1) heeledBuffer))
  /\ calculatePeriod
       (warmState defaultConfig None (sampleAttitude 0 0.1) heeledBuffer)
     = (warmState defaultConfig None (sampleAttitude 0 0.1) heeledBuffer, None).
Proof.
  assert (H : Forall (fun e => 0 < roll e)
                (attitudeBuffer
                   (warmState defaultConfig None (sampleAttitude 0 0.1)
                      heeledBuffer))).
  { repeat constructor; cbn; lra. }
  split; [exact H |].
  apply calculatePeriod_one_sided_roll. left. exact H.
Defined.

Lemma crossingTimes_ext (buffer1 buffer2 : list Entry) :
  map roll buffer1 = map roll buffer2 ->
  map timestamp buffer1 = map timestamp buffer2 ->
  crossingTimes buffer1 = crossingTimes buffer2.
Proof.
  unfold crossingTimes. revert buffer2.
  induction buffer1 as [| a1 l1 IH]; intros [| a2 l2] Hr Ht;
    try discriminate; [reflexivity |].
  cbn [map] in Hr, Ht. injection Hr as Hra Hr. injection Ht as Hta Ht.
  specialize (IH l2 Hr Ht).
  destruct l1 as [| b1 l1]; destruct l2 as [| b2 l2]; try discriminate;
    [reflexivity |].
  cbn [map] in Hr, Ht. injection Hr as Hrb _. injection Ht as Htb _.
  cbn [consecutive filter fst snd]. rewrite Hra, Hrb.
  destruct (isZeroCrossing (roll a2) (roll b2)).
  - cbn [map snd]. f_equal; [exact Htb | exact IH].
  - exact IH.
Qed.

(** X7: the period detector reads nothing but the rolls and the clock
    readings of the buffer, the configuration and the period history: two
    states that agree on these get the same result and the same new
    history, whatever their pitches, yaws, magnitudes and headings. *)
Theorem calculatePeriod_reads_roll_and_time :
  forall st1 st2 : PluginState,
    map roll (attitudeBuffer st1) = map roll (attitudeBuffer st2) ->
    map timestamp (attitudeBuffer st1) = map timestamp (attitudeBuffer st2) ->
    currentConfig st1 = currentConfig st2 ->
    periodState st1 = periodState st2 ->
    snd (calculatePeriod st1) = snd (calculatePeriod st2)
    /\ periodState (fst (calculatePeriod st1))
       = periodState (fst (calculatePeriod st2)).
Proof.
  intros st1 st2 Hr Ht Hc Hp.
  assert (Hlen : length (attitudeBuffer st1) = length (attitudeBuffer st2)).
  { pose proof (f_equal (@length R) Hr) as H. rewrite !length_map in H. exact H. }
  destruct (Nat.ltb_spec (length (attitudeBuffer st1)) 10) as [Hshort | Hlong].
  - unfold calculatePeriod. rewrite <- Hlen.
    apply Nat.ltb_lt in Hshort. rewrite Hshort. cbn [fst snd].
    split; [reflexivity | exact Hp].
  - rewrite (calculatePeriod_accepted st1 Hlong).
    rewrite (calculatePeriod_accepted st2) by (rewrite <- Hlen; exact Hlong).
    unfold acceptedPeriods.
    rewrite (crossingTimes_ext _ _ Hr Ht), Hc, Hp.
    destruct (map _ (filter _ _)); cbn [fst snd]; split;
      first [reflexivity | exact Hp].
Qed.

(** The slow roll with and without a pitching motion on top. *)
Lemma calculatePeriod_reads_roll_and_time_witness :
  map roll (attitudeBuffer
              (warmState defaultConfig None (sampleAttitude 0 0.1) slowRollBuffer))
  = map roll (attitudeBuffer
                (warmState defaultConfig (Some 1) (sampleAttitude 0.2 0.1)
                   (map (fun e => sampleEntry 0.2 (roll e) (timestamp e))
                      slowRollBuffer)))
  /\ snd (calculatePeriod
            (warmState defaultConfig None (sampleAttitude 0 0.1) slowRollBuffer))
     = snd (calculatePeriod
              (warmState defaultConfig (Some 1) (sampleAttitude 0.2 0.1)
                 (map (fun e => sampleEntry 0.2 (roll e) (timestamp e))
                    slowRollBuffer))).
Proof.
  split; [reflexivity |].
  apply (calculatePeriod_reads_roll_and_time
           (warmState defaultConfig None (sampleAttitude 0 0.1) slowRollBuffer)
           (warmState defaultConfig (Some 1) (sampleAttitude 0.2 0.1)
              (map (fun e => sampleEntry 0.2 (roll e) (timestamp e))
                 slowRollBuffer)));
    reflexivity.
Defined.

(** ** The motion statistics, further *)










(** ** Peaks and the phase shift *)

Lemma findPeaksFrom_spec (values : list R) (n i k : nat) :
  In k (findPeaksFrom values i n)
  <-> (i <= k < i + n)%nat
      /\ nth (k - 1) values 0 < nth k values 0
      /\ nth (k + 1) values 0 < nth k values 0.
Proof.
  revert i. induction n as [| n IH]; intro i.
  - cbn. split; [contradiction | lia].
  - cbn [findPeaksFrom].
    destruct (JS.ltb (nth (i - 1) values 0) (nth i values 0)
              && JS.ltb (nth (i + 1) values 0) (nth i values 0)) eqn:Hpeak.
    + apply andb_true_iff in Hpeak. rewrite !ltb_iff in Hpeak.
      cbn [In]. rewrite IH. split.
      * intros [<- | (Hk & H)]; [split; [lia | exact Hpeak] | split; [lia | exact H]].
      * intros (Hk & H). destruct (Nat.eq_dec i k) as [-> | Hne];
          [left; reflexivity | right; split; [lia | exact H]].
    + rewrite IH. split.
      * intros (Hk & H). split; [lia | exact H].
      * intros (Hk & H). split; [| exact H].
        destruct (Nat.eq_dec i k) as [-> | Hne]; [| lia].
        exfalso. destruct H as [H1 H2].
        rewrite (ltb_true _ _ H1), (ltb_true _ _ H2) in Hpeak. discriminate.
Qed.

Lemma findPeaksFrom_sorted (values : list R) (n i : nat) :
  StronglySorted lt (findPeaksFrom values i n).
Proof.
  revert i. induction n as [| n IH]; intro i; [constructor |].
  cbn [findPeaksFrom]. destruct (_ && _); [| apply IH].
  constructor; [apply IH |].
  apply Forall_forall. intros k Hk. apply findPeaksFrom_spec in Hk. lia.
Qed.

(** X11: [findPeaks] returns exactly the interior indices at which the
    series has a strict local maximum, in ascending order and without
    repetition; two neighbouring indices are never both returned, and a
    series of fewer than three values has no peak. *)
Theorem findPeaks_spec :
  forall values : list R,
    (forall i, In i (findPeaks values) <-> isPeak values i)
    /\ StronglySorted lt (findPeaks values)
    /\ (forall i, In i (findPeaks values) -> ~ In (S i) (findPeaks values))
    /\ ((length values < 3)%nat -> findPeaks values = []).
Proof.
  intro values.
  assert (Hspec : forall i, In i (findPeaks values) <-> isPeak values i).
  { intro i. unfold findPeaks, isPeak. rewrite findPeaksFrom_spec.
    split; intros (H1 & H2); repeat split; try tauto; lia. }
  split; [exact Hspec |]. split; [apply findPeaksFrom_sorted |]. split.
  - intros i Hi Hs. apply Hspec in Hi, Hs.
    destruct Hi as (_ & _ & _ & Hi). destruct Hs as (_ & _ & Hs & _).
    replace (S i - 1)%nat with i in Hs by lia.
    replace (i + 1)%nat with (S i) in Hi by lia. lra.
  - intro Hshort. destruct (findPeaks values) as [| k l] eqn:Hk; [reflexivity |].
    exfalso. assert (Hin : In k (k :: l)) by (left; reflexivity).
    apply Hspec in Hin. destruct Hin as (H1 & H2 & _). lia.
Qed.

Lemma nearestRollPeak_fold (pitchPeak : nat) (rest front mid : list nat)
    (acc : nat) :
  (forall r, In r front -> (peakDistance pitchPeak acc < peakDistance pitchPeak r)%Z) ->
  (forall r, In r mid -> (peakDistance pitchPeak acc <= peakDistance pitchPeak r)%Z) ->
  exists front' back',
    front ++ acc :: mid ++ rest
    = front'
      ++ fold_left
           (fun nearest rollPeak =>
              if (Z.abs (Z.of_nat rollPeak - Z.of_nat pitchPeak)
                  <? Z.abs (Z.of_nat nearest - Z.of_nat pitchPeak))%Z
              then rollPeak else nearest)
           rest acc
      :: back'
    /\ (forall r, In r front' ->
                  (peakDistance pitchPeak
                     (fold_left
                        (fun nearest rollPeak =>
                           if (Z.abs (Z.of_nat rollPeak - Z.of_nat pitchPeak)
                               <? Z.abs (Z.of_nat nearest - Z.of_nat pitchPeak))%Z
                           then rollPeak else nearest)
                        rest acc)
                   < peakDistance pitchPeak r)%Z)
    /\ (forall r, In r back' ->
                  (peakDistance pitchPeak
                     (fold_left
                        (fun nearest rollPeak =>
                           if (Z.abs (Z.of_nat rollPeak - Z.of_nat pitchPeak)
                               <? Z.abs (Z.of_nat nearest - Z.of_nat pitchPeak))%Z
                           then rollPeak else nearest)
                        rest acc)
                   <= peakDistance pitchPeak r)%Z).
Proof.
  revert front mid acc.
  induction rest as [| x rest IH]; intros front mid acc Hfront Hmid.
  - exists front, mid. rewrite app_nil_r. cbn [fold_left].
    split; [reflexivity | split; assumption].
  - cbn [fold_left].
    fold (peakDistance pitchPeak x). fold (peakDistance pitchPeak acc).
    destruct (Z.ltb_spec (peakDistance pitchPeak x) (peakDistance pitchPeak acc))
      as [Hlt | Hge].
    + destruct (IH (front ++ acc :: mid) [] x) as (f' & b' & Heq & Hf & Hb).
      * intros r Hr. apply in_app_or in Hr. destruct Hr as [Hr | [<- | Hr]].
        -- specialize (Hfront r Hr). lia.
        -- exact Hlt.
        -- specialize (Hmid r Hr). lia.
      * intros r [].
      * exists f', b'. split; [| split; assumption].
        rewrite <- Heq. cbn [app]. rewrite <- !app_assoc. reflexivity.
    + destruct (IH front (mid ++ [x]) acc) as (f' & b' & Heq & Hf & Hb).
      * exact Hfront.
      * intros r Hr. apply in_app_or in Hr. destruct Hr as [Hr | [<- | []]].
        -- apply Hmid. exact Hr.
        -- exact Hge.
      * exists f', b'. split; [| split; assumption].
        rewrite <- Heq. rewrite <- !app_assoc. reflexivity.
Qed.

(** X12: among roll peaks that are not empty, the one paired with a pitch
    peak is a roll peak nearest to it by index, and on a tie it is the one
    that comes first in the array. *)
Theorem nearestRollPeak_nearest :
  forall (rollPeaks : list nat) (pitchPeak : nat),
    rollPeaks <> [] ->
    exists front back,
      rollPeaks = front ++ nearestRollPeak rollPeaks pitchPeak :: back
      /\ (forall r, In r front ->
                    (peakDistance pitchPeak (nearestRollPeak rollPeaks pitchPeak)
                     < peakDistance pitchPeak r)%Z)
      /\ (forall r, In r back ->
                    (peakDistance pitchPeak (nearestRollPeak rollPeaks pitchPeak)
                     <= peakDistance pitchPeak r)%Z).
Proof.
  intros [| first rest] pitchPeak Hne; [contradiction |].
  unfold nearestRollPeak.
  destruct (nearestRollPeak_fold pitchPeak rest [] [] first)
    as (front & back & Heq & Hf & Hb); try (intros r []).
  exists front, back. split; [exact Heq | split; assumption].
Qed.

(** Roll peaks at 2 and 6 around a pitch peak at 4: the first one wins. *)
Lemma nearestRollPeak_nearest_witness :
  [2; 6]%nat <> []
  /\ nearestRollPeak [2; 6]%nat 4 = 2%nat
  /\ exists front back,
       [2; 6]%nat = front ++ nearestRollPeak [2; 6]%nat 4 :: back.
Proof.
  assert (Hne : [2; 6]%nat <> []) by discriminate.
  split; [exact Hne |]. split; [reflexivity |].
  destruct (nearestRollPeak_nearest [2; 6]%nat 4%nat Hne)
    as (front & back & Heq & _).
  exists front, back. exact Heq.
Defined.

Lemma nearestRollPeak_In (rollPeaks : list nat) (pitchPeak : nat) :
  rollPeaks <> [] -> In (nearestRollPeak rollPeaks pitchPeak) rollPeaks.
Proof.
  intro Hne. destruct rollPeaks as [| first rest]; [contradiction |].
  unfold nearestRollPeak.
  assert (Hfold : forall acc,
             In (fold_left
                   (fun nearest rollPeak =>
                      if (Z.abs (Z.of_nat rollPeak - Z.of_nat pitchPeak)
                          <? Z.abs (Z.of_nat nearest - Z.of_nat pitchPeak))%Z
                      then rollPeak else nearest)
                   rest acc) (acc :: rest)).
  { induction rest as [| r rest IH]; intro acc; [left; reflexivity |].
    cbn [fold_left].
    destruct (Z.abs (Z.of_nat r - Z.of_nat pitchPeak)
              <? Z.abs (Z.of_nat acc - Z.of_nat pitchPeak))%Z.
    - right. apply IH. discriminate.
    - destruct (IH ltac:(discriminate) acc) as [H | H];
        [left; exact H | right; right; exact H]. }
  apply Hfold.
Qed.

Lemma findPeaks_below (values : list R) (i : nat) :
  In i (findPeaks values) -> (i < length values)%nat.
Proof.
  unfold findPeaks. intro H. apply findPeaksFrom_spec in H. lia.
Qed.

(** X13: the phase shift is 0 for a buffer of at most ten entries and when
    the pitch or the roll series has no peak; in every case its magnitude
    is at most the number of entries times the magnitude of the update
    rate. *)
Theorem motionPhaseShift_bound :
  forall (st : PluginState) (buffer : list Entry),
    let shift := motionPhaseShift (calculateMotionStatistics st buffer) in
    ((length buffer <= 10)%nat -> shift = 0)
    /\ (findPeaks (map pitch buffer) = [] \/ findPeaks (map roll buffer) = [] ->
        shift = 0)
    /\ Rabs shift <= INR (length buffer) * Rabs (updateRate (currentConfig st)).
Proof.
  intros st buffer shift. subst shift.
  assert (Hzero : 0 <= INR (length buffer) * Rabs (updateRate (currentConfig st))).
  { apply Rmult_le_pos; [apply pos_INR | apply Rabs_pos]. }
  unfold calculateMotionStatistics.
  destruct (Nat.ltb_spec (length buffer) 5) as [Hshort | Hlong].
  { cbn [motionPhaseShift]. rewrite Rabs_R0. auto. }
  cbv zeta. cbn [motionPhaseShift].
  destruct (Nat.ltb_spec 10 (length buffer)) as [Hbig | Hsmall];
    [| rewrite Rabs_R0; auto].
  set (pitchPeaks := findPeaks (map pitch buffer)).
  set (rollPeaks := findPeaks (map roll buffer)).
  destruct pitchPeaks as [| p0 pitchPeaks'] eqn:Hpp;
    [cbn; rewrite Rabs_R0; auto |].
  destruct rollPeaks as [| r0 rollPeaks'] eqn:Hrp;
    [cbn; rewrite Rabs_R0; auto |].
  rewrite <- Hpp, <- Hrp.
  assert (Hp1 : (0 <? length pitchPeaks)%nat = true) by (rewrite Hpp; reflexivity).
  assert (Hr1 : (0 <? length rollPeaks)%nat = true) by (rewrite Hrp; reflexivity).
  rewrite Hp1, Hr1. cbn [andb]. rewrite sum_mean, length_map, Hp1.
  split; [lia |]. split; [intros [H | H]; [rewrite Hpp in H | rewrite Hrp in H]; discriminate |].
  set (rate := updateRate (currentConfig st)) in *.
  set (bound := INR (length buffer) * Rabs rate) in *.
  assert (Hall : Forall (fun t => - bound <= t <= bound)
                        (map (fun pitchPeak =>
                                IZR (Z.of_nat (nearestRollPeak rollPeaks pitchPeak)
                                     - Z.of_nat pitchPeak) * rate)
                             pitchPeaks)).
  { rewrite Forall_map. apply Forall_forall. intros p Hp.
    assert (Hnear : In (nearestRollPeak rollPeaks p) rollPeaks).
    { apply nearestRollPeak_In. rewrite Hrp. discriminate. }
    subst pitchPeaks rollPeaks.
    apply findPeaks_below in Hp, Hnear. rewrite length_map in Hp, Hnear.
    set (near := nearestRollPeak _ p) in *. unfold Entry in *.
    assert (Hd : (- Z.of_nat (length buffer) <= Z.of_nat near - Z.of_nat p
                  <= Z.of_nat (length buffer))%Z) by lia.
    destruct Hd as [Hd1 Hd2]. apply IZR_le in Hd1, Hd2.
    rewrite opp_IZR in Hd1. rewrite <- INR_IZR_INZ in Hd1, Hd2.
    set (d := IZR (Z.of_nat near - Z.of_nat p)) in *.
    unfold bound. pose proof (pos_INR (length buffer)) as Hn.
    unfold Rabs. destruct (Rcase_abs rate); nra. }
  assert (Hmean : - bound <= mean (map (fun pitchPeak =>
                                IZR (Z.of_nat (nearestRollPeak rollPeaks pitchPeak)
                                     - Z.of_nat pitchPeak) * rate)
                             pitchPeaks) <= bound).
  { apply mean_between; [| exact Hall]. rewrite Hpp. discriminate. }
  unfold Rabs. destruct (Rcase_abs _); lra.
Qed.

(** ** The attitude buffer over a run and across a restart *)

Lemma pushShift_length_eq {A : Type} (bound : Z) (xs : list A) (x : A) :
  length (JS.pushShift bound xs x)
  = if (bound <=? Z.of_nat (length xs))%Z then length xs else S (length xs).
Proof.
  unfold JS.pushShift. cbv zeta. rewrite length_app. cbn [length].
  destruct (Z.ltb_spec bound (Z.of_nat (length xs + 1)));
    destruct (Z.leb_spec bound (Z.of_nat (length xs))); try lia.
  - destruct xs as [| a xs]; cbn [app tl length] in *; [lia |].
    rewrite length_app. cbn [length]. lia.
  - rewrite length_app. cbn [length]. lia.
Qed.

Lemma handleEvent_buffer_length (st : PluginState) (e : Event) :
  let st' := fst (handleEvent st e) in
  (length (attitudeBuffer st) <= length (attitudeBuffer st'))%nat
  /\ ((maxBufferSize st <= Z.of_nat (length (attitudeBuffer st)))%Z ->
      length (attitudeBuffer st') = length (attitudeBuffer st)).
Proof.
  destruct (handleEvent_buffer st e) as (_ & _ & [Hsame | Hpush]).
  - cbv zeta. rewrite Hsame. split; [lia | reflexivity].
  - destruct Hpush as (value & stamp & now & later & p & r & _ & Hbuf).
    cbv zeta. rewrite Hbuf, pushShift_length_eq.
    destruct (Z.leb_spec (maxBufferSize st) (Z.of_nat (length (attitudeBuffer st))));
      split; try lia; reflexivity.
Qed.

Lemma run_buffer_length (events : list Event) (st : PluginState) :
  let st' := fst (run st events) in
  (length (attitudeBuffer st) <= length (attitudeBuffer st'))%nat
  /\ ((maxBufferSize st <= Z.of_nat (length (attitudeBuffer st)))%Z ->
      length (attitudeBuffer st') = length (attitudeBuffer st)).
Proof.
  revert st. induction events as [| e events IH]; intro st.
  - cbn. split; [lia | reflexivity].
  - cbv zeta. rewrite run_cons. cbn [fst].
    destruct (handleEvent_buffer_length st e) as [Hle Heq].
    destruct (handleEvent_buffer st e) as (Hmax & _ & _).
    cbv zeta in Hle, Heq, Hmax.
    destruct (IH (fst (handleEvent st e))) as [IHle IHeq]. cbv zeta in IHle, IHeq.
    split; [lia |]. intro Hfull.
    rewrite IHeq; [apply Heq; exact Hfull |].
    rewrite Hmax, (Heq Hfull). exact Hfull.
Qed.

(** X14: a tick never shortens the attitude buffer, and a buffer that
    already holds at least as many entries as the capacity keeps its length
    for ever: one entry is dropped per entry added, so a buffer longer than
    the capacity is never cut back to it. *)
Theorem attitudeBuffer_never_shrinks :
  forall (events : list Event) (st : PluginState),
    let st' := fst (run st events) in
    (length (attitudeBuffer st) <= length (attitudeBuffer st'))%nat
    /\ ((maxBufferSize st <= Z.of_nat (length (attitudeBuffer st)))%Z ->
        length (attitudeBuffer st') = length (attitudeBuffer st)).
Proof. intros events st. apply run_buffer_length. Qed.



(** X16: after a restart that lowers the capacity to or below the number
    of entries already buffered, the buffer keeps that number of entries
    over every run: it is never trimmed to the new capacity. *)
Theorem restart_keeps_buffer_length :
  forall (options : PluginOptions.t) (designLength : option R)
         (selfName : option string) (st : PluginState) (events : list Event),
    let restarted := startPlugin options designLength selfName st in
    (maxBufferSize restarted <= Z.of_nat (length (attitudeBuffer st)))%Z ->
    length (attitudeBuffer (fst (run restarted events)))
    = length (attitudeBuffer st).
Proof.
  intros options designLength selfName st events restarted Hfull.
  destruct (run_buffer_length events restarted) as [_ Heq]. cbv zeta in Heq.
  change (attitudeBuffer restarted) with (attitudeBuffer st) in Heq.
  apply Heq. exact Hfull.
Qed.

Lemma restart_keeps_buffer_length_witness :
  (maxBufferSize
     (startPlugin (shortSpanOptions 5) None None
        (warmState defaultConfig None (sampleAttitude 0 0.1) slowRollBuffer))
   <= Z.of_nat (length slowRollBuffer))%Z
  /\ length (attitudeBuffer
               (fst (run (startPlugin (shortSpanOptions 5) None None
                            (warmState defaultConfig None (sampleAttitude 0 0.1)
                               slowRollBuffer))
                         slowRollStream)))
     = length slowRollBuffer.
Proof.
  assert (Hcap : maxBufferSize
                   (startPlugin (shortSpanOptions 5) None None
                      (warmState defaultConfig None (sampleAttitude 0 0.1)
                         slowRollBuffer))
                 = 5%Z).
  { unfold startPlugin, start. cbn.
    replace (5 * 1000 / 1000) with (IZR 5) by lra. apply ceil_IZR. }
  assert (Hfull : (maxBufferSize
                     (startPlugin (shortSpanOptions 5) None None
                        (warmState defaultConfig None (sampleAttitude 0 0.1)
                           slowRollBuffer))
                   <= Z.of_nat (length slowRollBuffer))%Z).
  { rewrite Hcap. cbn. lia. }
  split; [exact Hfull |].
  exact (restart_keeps_buffer_length (shortSpanOptions 5) None None
           (warmState defaultConfig None (sampleAttitude 0 0.1) slowRollBuffer)
           slowRollStream Hfull).
Defined.

(** ** The polling fallback *)

Lemma calculateSeaState_lastHeading (st : PluginState) (now later : Z) :
  lastHeading (fst (calculateSeaState st now later)) = lastHeading st.
Proof.
  destruct (Attitude.pitch (lastAttitude st)) as [p |] eqn:Hp;
    [| rewrite calculateSeaState_early_return by (left; exact Hp); reflexivity].
  destruct (Attitude.roll (lastAttitude st)) as [r |] eqn:Hr;
    [| rewrite calculateSeaState_early_return by (right; exact Hr); reflexivity].
  destruct (calculateSeaState_shape st now later p r Hp Hr) as (ps & ds & res & ->).
  reflexivity.
Qed.

Lemma calculateSeaState_no_heading (st : PluginState) (now later : Z) :
  lastHeading st = None ->
  directionAbsent (snd (calculateSeaState st now later)).
Proof.
  intro Hh.
  destruct (Attitude.pitch (lastAttitude st)) as [p |] eqn:Hp;
    [| rewrite calculateSeaState_early_return by (left; exact Hp); exact I].
  destruct (Attitude.roll (lastAttitude st)) as [r |] eqn:Hr;
    [| rewrite calculateSeaState_early_return by (right; exact Hr); exact I].
  destruct (calculateSeaState_stages st now later p r Hp Hr)
    as (res & -> & _ & Hdir & _).
  cbn [snd directionAbsent]. rewrite Hdir.
  match goal with
  | |- snd (if ?c then calculateAbsoluteWaveDirection ?s ?b ?m else _) = None =>
      assert (Hs : lastHeading s = None); [| destruct c; [| reflexivity]]
  end.
  - match goal with
    | |- lastHeading (fst (if ?c then _ else _)) = None => destruct c
    end; [rewrite calculatePeriod_lastHeading |]; exact Hh.
  - rewrite direction_without_heading by exact Hs. reflexivity.
Qed.

Lemma updateAttitudeFromValue_heading
    (value : AttitudeValue) (stamp : string) (h : option R) (st : PluginState) :
  updateAttitudeFromValue value stamp (set_lastHeading h st)
  = set_lastHeading h (updateAttitudeFromValue value stamp st).
Proof. reflexivity. Qed.

Lemma directPoll_as_events (p : Poll) (st : PluginState) :
  fst (directPoll (pollAttitude p) (pollHeading p) (pollStamp p) (pollNow p)
         (pollLater p) st)
  = fst (run st (pollEvents p))
  /\ emitted [snd (directPoll (pollAttitude p) (pollHeading p) (pollStamp p)
                     (pollNow p) (pollLater p) st)]
     = emitted (snd (run st (pollEvents p))).
Proof.
  unfold directPoll, pollEvents.
  destruct (pollAttitude p) as [value |]; destruct (pollHeading p) as [heading |];
    try destruct (JS.eqb heading 0);
    cbn [app run handleEvent fst snd];
    rewrite ?updateAttitudeFromValue_heading;
    repeat match goal with
           | |- context [calculateSeaState ?s ?n ?l] =>
               let st' := fresh "st'" in
               let out := fresh "out" in
               destruct (calculateSeaState s n l) as [st' out]
           end;
    cbn [fst snd emitted flat_map app]; split; reflexivity.
Qed.

Lemma emitted_app (outs1 outs2 : list (option SeaStateResults.t)) :
  emitted (outs1 ++ outs2) = emitted outs1 ++ emitted outs2.
Proof. unfold emitted. apply flat_map_app. Qed.

Lemma runPolls_cons (st : PluginState) (p : Poll) (polls : list Poll) :
  runPolls st (p :: polls)
  = (fst (runPolls (fst (directPoll (pollAttitude p) (pollHeading p) (pollStamp p)
                           (pollNow p) (pollLater p) st)) polls),
     snd (directPoll (pollAttitude p) (pollHeading p) (pollStamp p)
            (pollNow p) (pollLater p) st)
     :: snd (runPolls (fst (directPoll (pollAttitude p) (pollHeading p)
                              (pollStamp p) (pollNow p) (pollLater p) st)) polls)).
Proof.
  cbn [runPolls].
  destruct (directPoll _ _ _ _ _ st) as [st1 out]. cbn [fst snd].
  destruct (runPolls st1 polls) as [st2 outs]. reflexivity.
Qed.

(** X17: the timer does nothing the subscriptions could not do: a run of
    timer rounds ends in the same state, and hands the same results to the
    emitter in the same order, as the run over the events the rounds
    amount to (per round the non-zero heading, then the attitude). *)
Theorem runPolls_as_events :
  forall (polls : list Poll) (st : PluginState),
    fst (runPolls st polls) = fst (run st (flat_map pollEvents polls))
    /\ emitted (snd (runPolls st polls))
       = emitted (snd (run st (flat_map pollEvents polls))).
Proof.
  induction polls as [| p polls IH]; intro st; [split; reflexivity |].
  rewrite runPolls_cons. cbn [flat_map fst snd]. rewrite run_app. cbn [fst snd].
  destruct (directPoll_as_events p st) as [Hst Hout].
  rewrite Hst. destruct (IH (fst (run st (pollEvents p)))) as [IHst IHout].
  split; [exact IHst |].
  rewrite emitted_app, <- Hout, <- IHout.
  change (?x :: ?l) with ([x] ++ l) at 1. apply emitted_app.
Qed.

(** X18: the timer never learns a heading of exactly zero.  From a state
    without heading, rounds in which the server holds no heading or the
    heading 0 leave the heading unknown, so no result of theirs carries a
    direction; the same heading delivered by a subscription is stored. *)
Theorem polling_ignores_zero_heading :
  forall (polls : list Poll) (st : PluginState),
    lastHeading st = None ->
    Forall zeroOrNoHeading polls ->
    lastHeading (fst (runPolls st polls)) = None
    /\ Forall directionAbsent (snd (runPolls st polls))
    /\ lastHeading (fst (handleEvent st (HeadingEvent 0))) = Some 0.
Proof.
  intros polls st Hh Hall.
  assert (Hpolls : lastHeading (fst (runPolls st polls)) = None
                   /\ Forall directionAbsent (snd (runPolls st polls))).
  { revert st Hh. induction Hall as [| p polls Hp _ IH]; intros st Hh.
    - split; [exact Hh | constructor].
    - rewrite runPolls_cons. cbn [fst snd].
      assert (Hstep : lastHeading (fst (directPoll (pollAttitude p) (pollHeading p)
                                          (pollStamp p) (pollNow p) (pollLater p) st))
                      = None
                      /\ directionAbsent
                           (snd (directPoll (pollAttitude p) (pollHeading p)
                                   (pollStamp p) (pollNow p) (pollLater p) st))).
      { unfold directPoll.
        assert (Hkeep : match pollHeading p with
                        | Some heading =>
                            if JS.eqb heading 0 then @None R else Some heading
                        | None => None
                        end = None).
        { destruct Hp as [-> | ->]; [reflexivity |].
          rewrite eqb_true by reflexivity. reflexivity. }
        destruct (pollAttitude p) as [value |].
        - rewrite calculateSeaState_lastHeading.
          match goal with
          | |- lastHeading ?s = None /\ _ =>
              assert (Hs : lastHeading s = None)
          end.
          { destruct (pollHeading p) as [heading |]; [| exact Hh].
            destruct (JS.eqb heading 0); [exact Hh | discriminate]. }
          split; [exact Hs |]. apply calculateSeaState_no_heading. exact Hs.
        - cbn [fst snd]. split; [| exact I].
          destruct (pollHeading p) as [heading |]; [| exact Hh].
          destruct (JS.eqb heading 0); [exact Hh | discriminate]. }
      destruct Hstep as [Hh1 Hout].
      destruct (IH _ Hh1) as [IHh IHouts].
      split; [exact IHh | constructor; assumption]. }
  destruct Hpolls as [H1 H2]. repeat split; assumption.
Qed.

Lemma polling_ignores_zero_heading_witness :
  lastHeading (initialState defaultConfig) = None
  /\ Forall zeroOrNoHeading [northPoll 0; northPoll 2000]
  /\ lastHeading (fst (runPolls (initialState defaultConfig)
                         [northPoll 0; northPoll 2000])) = None
  /\ Forall directionAbsent
            (snd (runPolls (initialState defaultConfig)
                    [northPoll 0; northPoll 2000]))
  /\ lastHeading (fst (handleEvent (initialState defaultConfig) (HeadingEvent 0)))
     = Some 0.
Proof.
  assert (Hnorth : Forall zeroOrNoHeading [northPoll 0; northPoll 2000]).
  { repeat constructor; right; reflexivity. }
  split; [reflexivity |]. split; [exact Hnorth |].
  exact (polling_ignores_zero_heading [northPoll 0; northPoll 2000]
           (initialState defaultConfig) eq_refl Hnorth).
Defined.

(** ** The histories over a run *)

Lemma run_invariant (P : PluginState -> Prop)
    (Q : option SeaStateResults.t -> Prop) :
  (forall st e, P st ->
                P (fst (handleEvent st e)) /\ Q (snd (handleEvent st e))) ->
  forall events st,
    P st -> P (fst (run st events)) /\ Forall Q (snd (run st events)).
Proof.
  intros Hstep events. induction events as [| e events IH]; intros st HP.
  - split; [exact HP | constructor].
  - rewrite run_cons, run_snd_cons.
    destruct (Hstep st e HP) as [HP1 HQ1].
    destruct (IH _ HP1) as [HP2 HQ2].
    split; [exact HP2 | constructor; assumption].
Qed.

(** What a period estimate does to the period history. *)
Lemma calculatePeriod_cases (st : PluginState) :
  (snd (calculatePeriod st) = None
   /\ periodState (fst (calculatePeriod st)) = periodState st)
  \/ exists avg,
       periods (periodState (fst (calculatePeriod st)))
       = JS.pushShift 10 (periods (periodState st)) avg
       /\ snd (calculatePeriod st)
          = Some (mean (JS.pushShift 10 (periods (periodState st)) avg)).
Proof.
  unfold calculatePeriod.
  destruct (length (attitudeBuffer st) <? 10)%nat; [left; split; reflexivity |].
  cbv zeta.
  destruct (length (scanZeroCrossings _ _ _) <? 2)%nat; [left; split; reflexivity |].
  destruct (length (scanPeriods _ _ _ _) =? 0)%nat; [left; split; reflexivity |].
  right. eexists. cbn [fst snd set_periodState periodState periods].
  split; [reflexivity |]. rewrite sum_mean. reflexivity.
Qed.

(** What a direction estimate does to the direction state. *)
Lemma calculateAbsoluteWaveDirection_cases
    (st : PluginState) (buffer : list Entry) (stats : MotionStatistics) :
  (snd (calculateAbsoluteWaveDirection st buffer stats) = None
   /\ fst (calculateAbsoluteWaveDirection st buffer stats) = st)
  \/ exists d,
       snd (calculateAbsoluteWaveDirection st buffer stats) = Some d
       /\ directionState (fst (calculateAbsoluteWaveDirection st buffer stats))
          = {| directionBuffer :=
                 JS.pushShift 10 (directionBuffer (directionState st)) d;
               lastDirection := Some d;
               directionConfidence :=
                 updateConfidence
                   (JS.pushShift 10 (directionBuffer (directionState st)) d)
                   (directionConfidence (directionState st)) |}.
Proof.
  unfold calculateAbsoluteWaveDirection.
  destruct (lastHeading st); [| left; split; reflexivity].
  destruct (calculateRelativeWaveDirection buffer stats);
    [| left; split; reflexivity].
  right. eexists. split; reflexivity.
Qed.

(** What an event does to the two histories and how the result reports
    it. *)
Lemma handleEvent_cases (st : PluginState) (e : Event) :
  let st' := fst (handleEvent st e) in
  let out := snd (handleEvent st e) in
  (out = None
   /\ periodState st' = periodState st
   /\ directionState st' = directionState st)
  \/ exists res,
       out = Some res
       /\ SeaStateResults.directionConfidence res
          = directionConfidence (directionState st')
       /\ ((SeaStateResults.period res = None
            /\ periodState st' = periodState st)
           \/ exists avg,
                periods (periodState st')
                = JS.pushShift 10 (periods (periodState st)) avg
                /\ SeaStateResults.period res
                   = Some (mean (JS.pushShift 10 (periods (periodState st)) avg)))
       /\ ((SeaStateResults.direction res = None
            /\ directionState st' = directionState st)
           \/ exists d,
                SeaStateResults.direction res = Some d
                /\ directionState st'
                   = {| directionBuffer :=
                          JS.pushShift 10 (directionBuffer (directionState st)) d;
                        lastDirection := Some d;
                        directionConfidence :=
                          updateConfidence
                            (JS.pushShift 10
                               (directionBuffer (directionState st)) d)
                            (directionConfidence (directionState st)) |}).
Proof.
  cbv zeta. destruct e as [value stamp now later | heading]; cbn [handleEvent];
    [| left; repeat split; reflexivity].
  set (st0 := updateAttitudeFromValue value stamp st).
  change (periodState st) with (periodState st0).
  change (directionState st) with (directionState st0).
  clearbody st0.
  destruct (Attitude.pitch (lastAttitude st0)) as [p |] eqn:Hp;
    [| rewrite calculateSeaState_early_return by (left; exact Hp);
       left; repeat split; reflexivity].
  destruct (Attitude.roll (lastAttitude st0)) as [r |] eqn:Hr;
    [| rewrite calculateSeaState_early_return by (right; exact Hr);
       left; repeat split; reflexivity].
  destruct (calculateSeaState_stages st0 now later p r Hp Hr)
    as (res & -> & Hper & Hdir & Hconf).
  right. exists res. cbn [fst snd].
  set (st1 := set_attitudeBuffer _ st0) in *.
  change (periodState st0) with (periodState st1).
  change (directionState st0) with (directionState st1).
  clearbody st1.
  set (periodStage := if enablePeriod (currentConfig st1) && _ then _ else _) in *.
  assert (HperiodStage :
            directionState (fst periodStage) = directionState st1
            /\ ((snd periodStage = None
                 /\ periodState (fst periodStage) = periodState st1)
                \/ exists avg,
                     periods (periodState (fst periodStage))
                     = JS.pushShift 10 (periods (periodState st1)) avg
                     /\ snd periodStage
                        = Some (mean (JS.pushShift 10
                                        (periods (periodState st1)) avg)))).
  { subst periodStage. destruct (enablePeriod (currentConfig st1) && _).
    - split; [apply calculatePeriod_directionState | apply calculatePeriod_cases].
    - split; [reflexivity | left; split; reflexivity]. }
  destruct HperiodStage as [Hds2 Hps2].
  set (st2 := fst periodStage) in *. clearbody st2.
  rewrite <- Hds2.
  set (directionStage :=
         if enableDirection (currentConfig st1) && _ then _ else _) in *.
  assert (HdirectionStage :
            periodState (fst directionStage) = periodState st2
            /\ ((snd directionStage = None
                 /\ directionState (fst directionStage) = directionState st2)
                \/ exists d,
                     snd directionStage = Some d
                     /\ directionState (fst directionStage)
                        = {| directionBuffer :=
                               JS.pushShift 10
                                 (directionBuffer (directionState st2)) d;
                             lastDirection := Some d;
                             directionConfidence :=
                               updateConfidence
                                 (JS.pushShift 10
                                    (directionBuffer (directionState st2)) d)
                                 (directionConfidence (directionState st2)) |})).
  { subst directionStage. destruct (enableDirection (currentConfig st1) && _).
    - split.
      + destruct (calculateAbsoluteWaveDirection_shape st2 (attitudeBuffer st2)
                    (calculateMotionStatistics st2 (attitudeBuffer st2)))
          as [ds ->]. reflexivity.
      + destruct (calculateAbsoluteWaveDirection_cases st2 (attitudeBuffer st2)
                    (calculateMotionStatistics st2 (attitudeBuffer st2)))
          as [[Hnone Hsame] | Hsome].
        * left. split; [exact Hnone | rewrite Hsame; reflexivity].
        * right. exact Hsome.
    - split; [reflexivity | left; split; reflexivity]. }
  destruct HdirectionStage as [Hps3 Hds3].
  rewrite Hper, Hdir, Hps3. repeat split; assumption.
Qed.

Lemma newest_app {A : Type} (xs : list A) (x : A) : newest (xs ++ [x]) = Some x.
Proof.
  induction xs as [| a xs IH]; [reflexivity |].
  cbn [app newest]. destruct (xs ++ [x]) eqn:Happ; [| exact IH].
  destruct xs; discriminate.
Qed.

Lemma pushShift_newest {A : Type} (bound : Z) (xs : list A) (x : A) :
  (1 <= bound)%Z -> newest (JS.pushShift bound xs x) = Some x.
Proof.
  intro Hbound. unfold JS.pushShift. cbv zeta.
  destruct (Z.ltb_spec bound (Z.of_nat (length (xs ++ [x]))));
    [| apply newest_app].
  pose proof (newest_app xs x) as Hnew.
  destruct (xs ++ [x]) as [| a [| b rest]] eqn:Happ; cbn [length] in *; try lia.
  exact Hnew.
Qed.

Lemma pushShift_length_le {A : Type} (xs : list A) (x : A) :
  (length xs <= 10)%nat -> (length (JS.pushShift 10 xs x) <= 10)%nat.
Proof.
  intro Hlen. rewrite pushShift_length_eq.
  destruct (Z.leb_spec 10 (Z.of_nat (length xs))); lia.
Qed.

Lemma handleEvent_histories (st : PluginState) (e : Event) :
  (length (periods (periodState st)) <= 10)%nat
  /\ (length (directionBuffer (directionState st)) <= 10)%nat
  /\ lastDirection (directionState st)
     = newest (directionBuffer (directionState st)) ->
  let st' := fst (handleEvent st e) in
  (length (periods (periodState st')) <= 10)%nat
  /\ (length (directionBuffer (directionState st')) <= 10)%nat
  /\ lastDirection (directionState st')
     = newest (directionBuffer (directionState st')).
Proof.
  intros (Hper & Hdir & Hlast). cbv zeta.
  destruct (handleEvent_cases st e)
    as [(_ & -> & ->) | (res & _ & _ & Hp & Hd)]; [auto |].
  repeat split.
  - destruct Hp as [[_ ->] | (avg & -> & _)];
      [exact Hper | apply pushShift_length_le; exact Hper].
  - destruct Hd as [[_ ->] | (d & _ & ->)];
      [exact Hdir | apply pushShift_length_le; exact Hdir].
  - destruct Hd as [[_ ->] | (d & _ & ->)]; [exact Hlast |].
    cbn [lastDirection directionBuffer]. symmetry. apply pushShift_newest. lia.
Qed.

(** X19: from the start and over every run, the period history and the
    direction history hold at most ten values each, and the last direction
    the smoothing starts from is the newest value of the direction
    history (none while the history is empty). *)
Theorem histories_bounded :
  forall (config : PluginConfig) (events : list Event),
    let st := fst (run (start config (initialState config)) events) in
    (length (periods (periodState st)) <= 10)%nat
    /\ (length (directionBuffer (directionState st)) <= 10)%nat
    /\ lastDirection (directionState st)
       = newest (directionBuffer (directionState st)).
Proof.
  intros config events.
  apply (run_invariant
           (fun st =>
              (length (periods (periodState st)) <= 10)%nat
              /\ (length (directionBuffer (directionState st)) <= 10)%nat
              /\ lastDirection (directionState st)
                 = newest (directionBuffer (directionState st)))
           (fun _ => True)).
  - intros st e H. split; [apply handleEvent_histories; exact H | exact I].
  - cbn. repeat split; lia.
Qed.

Lemma directionCount_cons (out : option SeaStateResults.t)
    (outs : list (option SeaStateResults.t)) :
  directionCount (out :: outs)
  = ((if carriesDirection out then 1 else 0) + directionCount outs)%nat.
Proof.
  unfold directionCount. cbn [filter].
  destruct (carriesDirection out); reflexivity.
Qed.

Lemma directionCount_app (outs1 outs2 : list (option SeaStateResults.t)) :
  directionCount (outs1 ++ outs2)
  = (directionCount outs1 + directionCount outs2)%nat.
Proof. unfold directionCount. rewrite filter_app. apply length_app. Qed.

(** The confidence of a young direction history: still the initial 0. *)
Lemma handleEvent_young_confidence (st : PluginState) (e : Event) (k : nat) :
  (length (directionBuffer (directionState st)) <= k)%nat ->
  ((length (directionBuffer (directionState st)) <= 5)%nat ->
   directionConfidence (directionState st) = 0) ->
  let st' := fst (handleEvent st e) in
  let out := snd (handleEvent st e) in
  (length (directionBuffer (directionState st'))
   <= k + (if carriesDirection out then 1 else 0))%nat
  /\ ((length (directionBuffer (directionState st')) <= 5)%nat ->
      directionConfidence (directionState st') = 0)
  /\ match out with
     | Some res =>
         (length (directionBuffer (directionState st')) <= 5)%nat ->
         SeaStateResults.directionConfidence res = 0
     | None => True
     end.
Proof.
  intros Hk Hyoung. cbv zeta.
  destruct (handleEvent_cases st e)
    as [(-> & _ & ->) | (res & -> & Hconf & _ & Hd)].
  - cbn. split; [lia | split; [exact Hyoung | exact I]].
  - rewrite Hconf.
    destruct Hd as [[Hnone ->] | (d & Hsome & ->)].
    + unfold carriesDirection. cbn [emittedDirection]. rewrite Hnone.
      split; [lia | split; exact Hyoung].
    + unfold carriesDirection. cbn [emittedDirection]. rewrite Hsome.
      cbn [directionBuffer directionConfidence].
      pose proof (pushShift_length_eq 10
                    (directionBuffer (directionState st)) d) as Hlen.
      set (directions := JS.pushShift 10 _ d) in *.
      assert (Hstay : (length directions <= 5)%nat ->
                      updateConfidence directions
                        (directionConfidence (directionState st)) = 0).
      { intro Hfive. unfold updateConfidence.
        destruct (Nat.ltb_spec 5 (length directions)); [lia |].
        apply Hyoung.
        destruct (Z.leb_spec 10 (Z.of_nat
                                   (length (directionBuffer (directionState st)))));
          lia. }
      split; [| split; exact Hstay].
      destruct (Z.leb_spec 10 (Z.of_nat
                                 (length (directionBuffer (directionState st)))));
        lia.
Qed.

Lemma run_young_confidence (events : list Event) (st : PluginState) (k : nat) :
  (length (directionBuffer (directionState st)) <= k)%nat ->
  ((length (directionBuffer (directionState st)) <= 5)%nat ->
   directionConfidence (directionState st) = 0) ->
  let st' := fst (run st events) in
  (length (directionBuffer (directionState st'))
   <= k + directionCount (snd (run st events)))%nat
  /\ ((length (directionBuffer (directionState st')) <= 5)%nat ->
      directionConfidence (directionState st') = 0).
Proof.
  revert st k. induction events as [| e events IH]; intros st k Hk Hyoung.
  - cbn. split; [lia | exact Hyoung].
  - cbv zeta. rewrite run_cons, run_snd_cons, directionCount_cons.
    destruct (handleEvent_young_confidence st e k Hk Hyoung) as (Hk1 & Hyoung1 & _).
    cbv zeta in Hk1, Hyoung1.
    destruct (IH _ _ Hk1 Hyoung1) as [Hk2 Hyoung2]. cbv zeta in Hk2, Hyoung2.
    split; [lia | exact Hyoung2].
Qed.

(** X20: the confidence needs six directions.  After any run from the
    start in which fewer than five results carried a direction, the next
    result still has the initial confidence 0, whatever the directions
    were. *)
Theorem confidence_needs_six_directions :
  forall (config : PluginConfig) (events : list Event) (e : Event),
    let st := fst (run (start config (initialState config)) events) in
    let outs := snd (run (start config (initialState config)) events) in
    (directionCount outs < 5)%nat ->
    match snd (handleEvent st e) with
    | Some res => SeaStateResults.directionConfidence res = 0
    | None => True
    end.
Proof.
  intros config events e st outs Hcount.
  destruct (run_young_confidence events (start config (initialState config)) 0)
    as [Hk Hyoung]; [cbn; lia | reflexivity |].
  cbv zeta in Hk, Hyoung. fold st outs in Hk, Hyoung.
  destruct (handleEvent_young_confidence st e _ Hk Hyoung) as (Hk1 & _ & Hout).
  cbv zeta in Hk1, Hout.
  destruct (snd (handleEvent st e)) as [res |]; [| exact I].
  apply Hout. destruct (carriesDirection (Some res)); lia.
Qed.

Lemma confidence_needs_six_directions_witness :
  (directionCount
     (snd (run (start defaultConfig (initialState defaultConfig))
             [HeadingEvent 1])) < 5)%nat
  /\ match snd (handleEvent
                  (fst (run (start defaultConfig (initialState defaultConfig))
                          [HeadingEvent 1]))
                  (sampleTick 0.1 0 0)) with
     | Some res => SeaStateResults.directionConfidence res = 0
     | None => True
     end.
Proof.
  assert (Hcount : (directionCount
                      (snd (run (start defaultConfig (initialState defaultConfig))
                              [HeadingEvent 1])) < 5)%nat).
  { cbn. lia. }
  split; [exact Hcount |].
  exact (confidence_needs_six_directions defaultConfig [HeadingEvent 1]
           (sampleTick 0.1 0 0) Hcount).
Defined.

(** ** A capacity below ten *)

Lemma handleEvent_small_capacity (st : PluginState) (e : Event) :
  (maxBufferSize st < 10)%Z /\ (length (attitudeBuffer st) < 10)%nat ->
  ((maxBufferSize (fst (handleEvent st e)) < 10)%Z
   /\ (length (attitudeBuffer (fst (handleEvent st e))) < 10)%nat)
  /\ periodAndDirectionAbsent (snd (handleEvent st e)).
Proof.
  intros [Hcap Hlen].
  destruct e as [value stamp now later | heading]; cbn [handleEvent];
    [| cbn; auto].
  set (st0 := updateAttitudeFromValue value stamp st).
  assert (Hcap0 : (maxBufferSize st0 < 10)%Z) by exact Hcap.
  assert (Hlen0 : (length (attitudeBuffer st0) < 10)%nat) by exact Hlen.
  clearbody st0. clear Hcap Hlen.
  destruct (Attitude.pitch (lastAttitude st0)) as [p |] eqn:Hp;
    [| rewrite calculateSeaState_early_return by (left; exact Hp); cbn; auto].
  destruct (Attitude.roll (lastAttitude st0)) as [r |] eqn:Hr;
    [| rewrite calculateSeaState_early_return by (right; exact Hr); cbn; auto].
  destruct (calculateSeaState_stages st0 now later p r Hp Hr)
    as (res & -> & Hper & Hdir & _).
  set (st1 := set_attitudeBuffer _ st0) in *.
  assert (Hlen1 : (length (attitudeBuffer st1) < 10)%nat).
  { subst st1. cbn [set_attitudeBuffer attitudeBuffer].
    rewrite pushShift_length_eq.
    destruct (Z.leb_spec (maxBufferSize st0)
                (Z.of_nat (length (attitudeBuffer st0)))); lia. }
  assert (Hshort : (10 <=? length (attitudeBuffer st1))%nat = false)
    by (apply Nat.leb_gt; exact Hlen1).
  rewrite Hshort, andb_false_r in *. cbn [fst snd] in *.
  rewrite Hshort, andb_false_r in *. cbn [fst snd] in *.
  split; [split; [exact Hcap0 | exact Hlen1] | split; assumption].
Qed.

(** X21: with a capacity below ten the engine never estimates a period or
    a direction: from a buffer of fewer than ten entries, no result of any
    run carries either, since the buffer never reaches the ten entries both
    estimators ask for. *)
Theorem small_capacity_no_period_no_direction :
  forall (events : list Event) (st : PluginState),
    (maxBufferSize st < 10)%Z ->
    (length (attitudeBuffer st) < 10)%nat ->
    Forall periodAndDirectionAbsent (snd (run st events)).
Proof.
  intros events st Hcap Hlen.
  apply (run_invariant
           (fun st => (maxBufferSize st < 10)%Z
                      /\ (length (attitudeBuffer st) < 10)%nat)
           periodAndDirectionAbsent handleEvent_small_capacity events st).
  split; assumption.
Qed.

Lemma small_capacity_no_period_no_direction_witness :
  (maxBufferSize
     (startPlugin (shortSpanOptions 5) None None (initialState defaultConfig))
   < 10)%Z
  /\ (length (attitudeBuffer
                (startPlugin (shortSpanOptions 5) None None
                   (initialState defaultConfig))) < 10)%nat
  /\ Forall periodAndDirectionAbsent
            (snd (run (startPlugin (shortSpanOptions 5) None None
                         (initialState defaultConfig))
                    slowRollStream)).
Proof.
  assert (Hcap : (maxBufferSize
                    (startPlugin (shortSpanOptions 5) None None
                       (initialState defaultConfig)) < 10)%Z).
  { assert (Hfive : maxBufferSize
                       (startPlugin (shortSpanOptions 5) None None
                          (initialState defaultConfig)) = 5%Z).
    { unfold startPlugin, start. cbn.
      replace (5 * 1000 / 1000) with (IZR 5) by lra. apply ceil_IZR. }
    rewrite Hfive. lia. }
  assert (Hlen : (length (attitudeBuffer
                            (startPlugin (shortSpanOptions 5) None None
                               (initialState defaultConfig))) < 10)%nat).
  { cbn. lia. }
  split; [exact Hcap |]. split; [exact Hlen |].
  exact (small_capacity_no_period_no_direction slowRollStream
           (startPlugin (shortSpanOptions 5) None None
              (initialState defaultConfig)) Hcap Hlen).
Defined.

(** ** Smoothing and confidence at the ends of their ranges *)

Lemma handleEvent_direction_value (st : PluginState) (e : Event) (d : R) :
  emittedDirection (snd (handleEvent st e)) = Some d ->
  exists raw, d = smoothDirection st raw.
Proof.
  destruct e as [value stamp now later | heading]; cbn [handleEvent];
    [| discriminate].
  set (st0 := updateAttitudeFromValue value stamp st).
  assert (Hsmooth : forall raw, smoothDirection st0 raw = smoothDirection st raw)
    by reflexivity.
  clearbody st0.
  destruct (Attitude.pitch (lastAttitude st0)) as [p |] eqn:Hp;
    [| rewrite calculateSeaState_early_return by (left; exact Hp); discriminate].
  destruct (Attitude.roll (lastAttitude st0)) as [r |] eqn:Hr;
    [| rewrite calculateSeaState_early_return by (right; exact Hr); discriminate].
  destruct (calculateSeaState_stages st0 now later p r Hp Hr)
    as (res & -> & _ & Hdir & _).
  cbn [snd emittedDirection]. rewrite Hdir. clear Hdir.
  set (st1 := set_attitudeBuffer _ st0) in *.
  set (periodStage := if enablePeriod (currentConfig st1) && _ then _ else _).
  assert (Hshape : exists ps, fst periodStage = set_periodState ps st1).
  { subst periodStage. destruct (enablePeriod (currentConfig st1) && _).
    - apply calculatePeriod_shape.
    - exists (periodState st1). cbn [fst]. now rewrite set_periodState_same. }
  destruct Hshape as [ps ->]. clearbody periodStage.
  destruct (enableDirection (currentConfig st1) && _); [| discriminate].
  unfold calculateAbsoluteWaveDirection.
  destruct (lastHeading (set_periodState ps st1)) as [heading |]; [| discriminate].
  destruct (calculateRelativeWaveDirection _ _) as [rel |]; [| discriminate].
  cbn [snd]. intro Hd. injection Hd as <-.
  exists (rawAbsoluteDirection rel heading). rewrite <- Hsmooth. reflexivity.
Qed.

Lemma smoothDirection_zero (st : PluginState) (d raw : R) :
  directionSmoothing (currentConfig st) = 0 ->
  lastDirection (directionState st) = Some d ->
  inTurn d ->
  smoothDirection st raw = d.
Proof.
  intros Hs Hlast Hd. unfold smoothDirection. rewrite Hlast, Hs. cbv zeta.
  rewrite Rmult_0_l, Rplus_0_r. apply ensureRange_within. exact Hd.
Qed.

Lemma handleEvent_zero_smoothing (d : R) (st : PluginState) (e : Event) :
  directionSmoothing (currentConfig st) = 0
  /\ lastDirection (directionState st) = Some d
  /\ inTurn d ->
  (directionSmoothing (currentConfig (fst (handleEvent st e))) = 0
   /\ lastDirection (directionState (fst (handleEvent st e))) = Some d
   /\ inTurn d)
  /\ directionNoneOr d (snd (handleEvent st e)).
Proof.
  intros (Hs & Hlast & Hd). pose proof Hd as [Hd0 Hd2].
  destruct (handleEvent_buffer st e) as (_ & Hconfig & _). cbv zeta in Hconfig.
  rewrite Hconfig.
  pose proof (handleEvent_direction_value st e) as Hvalue.
  destruct (handleEvent_cases st e)
    as [(Hout & _ & Hds) | (res & Hout & _ & _ & Hdir)].
  - rewrite Hds, Hout. repeat split; try assumption. left. reflexivity.
  - rewrite Hout in *. cbn [emittedDirection] in Hvalue. unfold directionNoneOr.
    cbn [emittedDirection].
    destruct Hdir as [[Hnone Hds] | (d' & Hsome & Hds)].
    + rewrite Hds. repeat split; try assumption. left. exact Hnone.
    + destruct (Hvalue d' Hsome) as [raw Hraw].
      rewrite (smoothDirection_zero st d raw Hs Hlast Hd) in Hraw. subst d'.
      rewrite Hds. cbn [lastDirection].
      repeat split; try assumption; try reflexivity. right. exact Hsome.
Qed.

(** X22: a smoothing factor of 0 freezes the direction.  Once a direction
    in [0, 2 PI) has been estimated, every later result that carries a
    direction carries that same one, whatever the motion and the heading
    do. *)
Theorem zero_smoothing_freezes_direction :
  forall (events : list Event) (st : PluginState) (d : R),
    directionSmoothing (currentConfig st) = 0 ->
    lastDirection (directionState st) = Some d ->
    inTurn d ->
    Forall (directionNoneOr d) (snd (run st events)).
Proof.
  intros events st d Hs Hlast Hd.
  apply (run_invariant
           (fun st => directionSmoothing (currentConfig st) = 0
                      /\ lastDirection (directionState st) = Some d
                      /\ inTurn d)
           (directionNoneOr d) (handleEvent_zero_smoothing d) events st).
  repeat split; try assumption; apply Hd.
Qed.

Lemma zero_smoothing_freezes_direction_witness :
  directionSmoothing (currentConfig onceEstimatedState) = 0
  /\ lastDirection (directionState onceEstimatedState) = Some 1
  /\ inTurn 1
  /\ Forall (directionNoneOr 1) (snd (run onceEstimatedState (pitchingStream 2))).
Proof.
  assert (Hturn : inTurn 1).
  { unfold inTurn. pose proof PI2_3_2. lra. }
  split; [reflexivity |]. split; [reflexivity |]. split; [exact Hturn |].
  exact (zero_smoothing_freezes_direction (pitchingStream 2) onceEstimatedState 1
           eq_refl eq_refl Hturn).
Defined.

(** [Math.atan2] undoes the pair of sine and cosine on its range. *)
Lemma atan2_sin_cos (d : R) :
  - PI < d <= PI -> JS.atan2 (sin d) (cos d) = d.
Proof.
  intros [Hlow Hhigh]. pose proof PI_RGT_0 as Hpi. unfold JS.atan2.
  destruct (Rtotal_order d (- (PI / 2))) as [Hd | [Hd | Hd]].
  - (* third quadrant *)
    assert (Hcos : cos d < 0).
    { rewrite <- cos_neg. apply cos_lt_0; lra. }
    assert (Hsin : sin d < 0).
    { replace d with (- - d) by ring. rewrite sin_neg.
      pose proof (sin_gt_0 (- d)). lra. }
    rewrite (ltb_false 0 (cos d)) by lra. rewrite (ltb_true (cos d) 0) by exact Hcos.
    rewrite (leb_false 0 (sin d)) by exact Hsin.
    assert (Htan : sin d / cos d = tan (d + PI)).
    { unfold tan. rewrite neg_sin, neg_cos. field. lra. }
    rewrite Htan, atan_tan by lra. ring.
  - subst d.
    assert (Hsin : sin (- (PI / 2)) = -1) by (rewrite sin_neg, sin_PI2; lra).
    rewrite cos_neg, cos_PI2, Hsin.
    rewrite (ltb_false 0 0) by lra.
    rewrite (ltb_false 0 (-1)) by lra. rewrite (ltb_true (-1) 0) by lra.
    reflexivity.
  - destruct (Rtotal_order d (PI / 2)) as [Hu | [Hu | Hu]].
    + assert (Hcos : 0 < cos d) by (apply cos_gt_0; lra).
      rewrite (ltb_true 0 (cos d)) by exact Hcos.
      change (sin d / cos d) with (tan d). apply atan_tan. lra.
    + subst d. rewrite cos_PI2, sin_PI2.
      rewrite (ltb_false 0 0) by lra. rewrite (ltb_true 0 1) by lra. reflexivity.
    + assert (Hcos : cos d < 0) by (apply cos_lt_0; lra).
      assert (Hsin : 0 <= sin d) by (apply sin_ge_0; lra).
      rewrite (ltb_false 0 (cos d)) by lra.
      rewrite (ltb_true (cos d) 0) by exact Hcos.
      rewrite (leb_true 0 (sin d)) by exact Hsin.
      assert (Htan : sin d / cos d = tan (d - PI)).
      { unfold tan.
        replace (sin d) with (sin (d - PI + PI)) by (f_equal; ring).
        replace (cos d) with (cos (d - PI + PI)) by (f_equal; ring).
        rewrite neg_sin, neg_cos. field.
        intro Hzero.
        assert (cos d = - cos (d - PI)).
        { replace d with (d - PI + PI) at 1 by ring. apply neg_cos. }
        lra. }
      rewrite Htan, atan_tan by lra. ring.
Qed.

Lemma fold_left_constant (f : R -> R) (d : R) (xs : list R) (a : R) :
  Forall (fun x => x = d) xs ->
  fold_left (fun sum x => sum + f x) xs a = a + INR (length xs) * f d.
Proof.
  intro Hall. revert a. induction Hall as [| x xs Hx _ IH]; intro a.
  - cbn. ring.
  - cbn [fold_left]. rewrite IH. subst x.
    change (length (d :: xs)) with (S (length xs)). rewrite S_INR. ring.
Qed.

(** X23: a steady direction has full confidence: for a history of at least
    six directions that are all the same angle of [0, 2 PI), the
    confidence is exactly 1, whatever it was before. *)
Theorem steady_directions_full_confidence :
  forall (directions : list R) (d previous : R),
    (5 < length directions)%nat ->
    Forall (fun x => x = d) directions ->
    inTurn d ->
    updateConfidence directions previous = 1.
Proof.
  intros directions d previous Hlen Hall [Hd0 Hd2].
  pose proof PI_RGT_0 as Hpi.
  unfold updateConfidence.
  destruct (Nat.ltb_spec 5 (length directions)) as [_ | Hshort]; [| lia].
  cbv zeta.
  assert (Hn : 0 < INR (length directions)) by (apply lt_0_INR; lia).
  rewrite (fold_left_constant sin d directions 0 Hall).
  rewrite (fold_left_constant cos d directions 0 Hall).
  replace ((0 + INR (length directions) * sin d) / INR (length directions))
    with (sin d) by (field; lra).
  replace ((0 + INR (length directions) * cos d) / INR (length directions))
    with (cos d) by (field; lra).
  assert (Hdiff : wrapDelta (d - JS.atan2 (sin d) (cos d)) = 0).
  { destruct (Rle_dec d PI) as [Hle | Hgt].
    - rewrite atan2_sin_cos by lra. unfold wrapDelta.
      replace (d - d) with 0 by ring.
      rewrite (ltb_false PI 0) by lra. rewrite (ltb_false 0 (- PI)) by lra.
      reflexivity.
    - assert (Hsin : sin d = sin (d - 2 * PI)).
      { rewrite <- (sin_period (d - 2 * PI) 1). f_equal. cbn [INR]. ring. }
      assert (Hcos : cos d = cos (d - 2 * PI)).
      { rewrite <- (cos_period (d - 2 * PI) 1). f_equal. cbn [INR]. ring. }
      rewrite Hsin, Hcos, atan2_sin_cos by lra. unfold wrapDelta.
      replace (d - (d - 2 * PI)) with (2 * PI) by ring.
      rewrite (ltb_true PI (2 * PI)) by lra.
      rewrite (ltb_false (2 * PI - 2 * PI) (- PI)) by lra. ring. }
  rewrite (fold_left_constant
             (fun dir =>
                wrapDelta (dir - JS.atan2 (sin d) (cos d))
                * wrapDelta (dir - JS.atan2 (sin d) (cos d)))
             d directions 0 Hall).
  rewrite Hdiff. unfold JS.max.
  replace (1 - (0 + INR (length directions) * (0 * 0)) / INR (length directions)
               / (PI * PI / 4)) with 1 by (field; lra).
  rewrite (leb_true 0 1) by lra. reflexivity.
Qed.

Lemma steady_directions_full_confidence_witness :
  (5 < length [1; 1; 1; 1; 1; 1])%nat
  /\ Forall (fun x => x = 1) [1; 1; 1; 1; 1; 1]
  /\ inTurn 1
  /\ updateConfidence [1; 1; 1; 1; 1; 1] 0 = 1.
Proof.
  assert (Hlen : (5 < length [1; 1; 1; 1; 1; 1])%nat) by (cbn; lia).
  assert (Hall : Forall (fun x => x = 1) [1; 1; 1; 1; 1; 1])
    by (repeat constructor).
  assert (Hturn : inTurn 1).
  { unfold inTurn. pose proof PI2_3_2. lra. }
  split; [exact Hlen |]. split; [exact Hall |]. split; [exact Hturn |].
  exact (steady_directions_full_confidence [1; 1; 1; 1; 1; 1] 1 0 Hlen Hall Hturn).
Defined.

(** ** What is emitted, and when *)

Lemma calculateSeaState_lastAttitude (st : PluginState) (now later : Z) :
  lastAttitude (fst (calculateSeaState st now later)) = lastAttitude st.
Proof.
  destruct (Attitude.pitch (lastAttitude st)) as [p |] eqn:Hp;
    [| rewrite calculateSeaState_early_return by (left; exact Hp); reflexivity].
  destruct (Attitude.roll (lastAttitude st)) as [r |] eqn:Hr;
    [| rewrite calculateSeaState_early_return by (right; exact Hr); reflexivity].
  destruct (calculateSeaState_shape st now later p r Hp Hr) as (ps & ds & res & ->).
  reflexivity.
Qed.

Lemma orElse_known {A : Type} (new old : option A) :
  old <> None -> orElse new old <> None.
Proof. intro H. destruct new; [discriminate | exact H]. Qed.

Lemma handleEvent_attitudeKnown (st : PluginState) (e : Event) :
  attitudeKnown st ->
  attitudeKnown (fst (handleEvent st e)) /\ emitsForAttitude e (snd (handleEvent st e)).
Proof.
  intros [Hp Hr]. destruct e as [value stamp now later | heading];
    cbn [handleEvent emitsForAttitude]; [| split; [split; assumption | reflexivity]].
  unfold attitudeKnown. rewrite calculateSeaState_lastAttitude.
  set (st0 := updateAttitudeFromValue value stamp st).
  assert (Hp0 : Attitude.pitch (lastAttitude st0) <> None)
    by (apply orElse_known; exact Hp).
  assert (Hr0 : Attitude.roll (lastAttitude st0) <> None)
    by (apply orElse_known; exact Hr).
  split; [split; assumption |].
  destruct (Attitude.pitch (lastAttitude st0)) as [p |] eqn:Hpitch; [| contradiction].
  destruct (Attitude.roll (lastAttitude st0)) as [r |] eqn:Hroll; [| contradiction].
  destruct (calculateSeaState_shape st0 now later p r Hpitch Hroll)
    as (ps & ds & res & ->).
  discriminate.
Qed.

(** X24: once pitch and roll are both known they stay known, and from then
    on every attitude event gives a result, also one whose attitude object
    carries no number at all, while a heading event never gives one. *)
Theorem attitude_known_always_emits :
  forall (events : list Event) (st : PluginState),
    attitudeKnown st ->
    attitudeKnown (fst (run st events))
    /\ Forall2 emitsForAttitude events (snd (run st events)).
Proof.
  induction events as [| e events IH]; intros st Hknown.
  - split; [exact Hknown | constructor].
  - rewrite run_cons, run_snd_cons.
    destruct (handleEvent_attitudeKnown st e Hknown) as [Hknown1 Hout].
    destruct (IH _ Hknown1) as [Hknown2 Houts].
    split; [exact Hknown2 | constructor; assumption].
Qed.

Lemma attitude_known_always_emits_witness :
  attitudeKnown (warmState defaultConfig None (sampleAttitude 0.1 0) [])
  /\ attitudeKnown
       (fst (run (warmState defaultConfig None (sampleAttitude 0.1 0) [])
               [AttitudeEvent emptyValue EmptyString 0 0; HeadingEvent 1]))
  /\ Forall2 emitsForAttitude
       [AttitudeEvent emptyValue EmptyString 0 0; HeadingEvent 1]
       (snd (run (warmState defaultConfig None (sampleAttitude 0.1 0) [])
               [AttitudeEvent emptyValue EmptyString 0 0; HeadingEvent 1])).
Proof.
  assert (Hknown : attitudeKnown
                     (warmState defaultConfig None (sampleAttitude 0.1 0) [])).
  { split; discriminate. }
  split; [exact Hknown |].
  exact (attitude_known_always_emits
           [AttitudeEvent emptyValue EmptyString 0 0; HeadingEvent 1]
           (warmState defaultConfig None (sampleAttitude 0.1 0) []) Hknown).
Defined.

Lemma hypot_degrees (p r : R) :
  JS.hypot (p * (180 / PI)) (r * (180 / PI)) = 180 / PI * sqrt (p * p + r * r).
Proof.
  pose proof PI_RGT_0 as Hpi. unfold JS.hypot.
  assert (Hk : 0 < 180 / PI) by (apply Rdiv_lt_0_compat; lra).
  set (k := 180 / PI) in *.
  replace (p * k * (p * k) + r * k * (r * k)) with (k * k * (p * p + r * r))
    by ring.
  rewrite sqrt_mult; [| nra | nra]. rewrite sqrt_square by lra. reflexivity.
Qed.

Lemma calculateSeaState_fields
    (st : PluginState) (now later : Z) (p r : R) :
  Attitude.pitch (lastAttitude st) = Some p ->
  Attitude.roll (lastAttitude st) = Some r ->
  exists res,
    snd (calculateSeaState st now later) = Some res
    /\ SeaStateResults.motionMagnitude res
       = JS.hypot (p * (180 / PI)) (r * (180 / PI))
    /\ SeaStateResults.waveHeight res
       = waveMultiplier (currentConfig st) * SeaStateResults.motionMagnitude res
    /\ SeaStateResults.heave res
       = (if enableHeave (currentConfig st)
          then Some (vesselLength (currentConfig st) * sin p) else None)
    /\ SeaStateResults.directionDegrees res
       = match SeaStateResults.direction res with
         | Some d => Some (d * 180 / PI)
         | None => None
         end
    /\ SeaStateResults.timestamp res = later.
Proof.
  intros Hp Hr. unfold calculateSeaState. rewrite Hp, Hr. cbv zeta.
  destruct (if enablePeriod _ && _ then _ else _) as [st2 period].
  destruct (if enableDirection _ && _ then _ else _) as [st3 direction].
  eexists. cbn [snd SeaStateResults.motionMagnitude SeaStateResults.waveHeight
                SeaStateResults.heave SeaStateResults.directionDegrees
                SeaStateResults.direction SeaStateResults.timestamp].
  repeat split; reflexivity.
Qed.

(** X25: every result is computed from the last known pitch and roll,
    which an event may have updated only in part.  The motion magnitude is
    180 / PI times the length of the vector of pitch and roll, so it is
    never negative and is 0 only for a level vessel; the wave height is the
    wave multiplier times that magnitude; the heave, when enabled, is the
    vessel length times the sine of the pitch, so at most the vessel length
    in magnitude; and the direction in degrees is the direction times
    180 / PI. *)
Theorem result_from_last_attitude :
  forall (st : PluginState) (e : Event),
    let st' := fst (handleEvent st e) in
    match snd (handleEvent st e) with
    | Some res =>
        exists p r,
          Attitude.pitch (lastAttitude st') = Some p
          /\ Attitude.roll (lastAttitude st') = Some r
          /\ SeaStateResults.motionMagnitude res
             = 180 / PI * sqrt (p * p + r * r)
          /\ 0 <= SeaStateResults.motionMagnitude res
          /\ (SeaStateResults.motionMagnitude res = 0 <-> p = 0 /\ r = 0)
          /\ SeaStateResults.waveHeight res
             = waveMultiplier (currentConfig st)
               * SeaStateResults.motionMagnitude res
          /\ SeaStateResults.heave res
             = (if enableHeave (currentConfig st)
                then Some (vesselLength (currentConfig st) * sin p) else None)
          /\ (forall h, SeaStateResults.heave res = Some h ->
                        Rabs h <= Rabs (vesselLength (currentConfig st)))
          /\ SeaStateResults.directionDegrees res
             = match SeaStateResults.direction res with
               | Some d => Some (d * 180 / PI)
               | None => None
               end
    | None => True
    end.
Proof.
  intros st e. cbv zeta.
  destruct e as [value stamp now later | heading]; cbn [handleEvent];
    [| exact I].
  rewrite calculateSeaState_lastAttitude.
  set (st0 := updateAttitudeFromValue value stamp st).
  change (currentConfig st) with (currentConfig st0). clearbody st0.
  destruct (Attitude.pitch (lastAttitude st0)) as [p |] eqn:Hp;
    [| rewrite calculateSeaState_early_return by (left; exact Hp); exact I].
  destruct (Attitude.roll (lastAttitude st0)) as [r |] eqn:Hr;
    [| rewrite calculateSeaState_early_return by (right; exact Hr); exact I].
  destruct (calculateSeaState_fields st0 now later p r Hp Hr)
    as (res & -> & Hmag & Hwave & Hheave & Hdeg & _).
  exists p, r. rewrite hypot_degrees in Hmag.
  pose proof PI_RGT_0 as Hpi.
  assert (Hk : 0 < 180 / PI) by (apply Rdiv_lt_0_compat; lra).
  pose proof (sqrt_pos (p * p + r * r)) as Hroot.
  split; [reflexivity |]. split; [reflexivity |]. split; [exact Hmag |].
  split; [rewrite Hmag; apply Rmult_le_pos; lra |].
  split.
  { rewrite Hmag. split.
    - intro Hzero.
      assert (Hsq : sqrt (p * p + r * r) = 0).
      { destruct (Rmult_integral _ _ Hzero); [lra | assumption]. }
      apply sqrt_eq_0 in Hsq; [| nra]. split; nra.
    - intros [-> ->]. replace (0 * 0 + 0 * 0) with 0 by ring.
      rewrite sqrt_0. ring. }
  split; [exact Hwave |]. split; [exact Hheave |]. split; [| exact Hdeg].
  intros h Hh. rewrite Hheave in Hh.
  destruct (enableHeave (currentConfig st0)); [| discriminate].
  injection Hh as <-. rewrite Rabs_mult.
  pose proof (Rabs_pos (vesselLength (currentConfig st0))) as Hlen.
  assert (Hsin : Rabs (sin p) <= 1).
  { pose proof (SIN_bound p) as [Hlow Hhigh].
    unfold Rabs. destruct (Rcase_abs (sin p)); lra. }
  nra.
Qed.

(** ** Settings the engine does not read *)

Lemma scanPeriods_engineSettings (config : PluginConfig)
    (zeroCrossings : list ZeroCrossing.t) (n j : nat) :
  scanPeriods (engineSettings config) zeroCrossings j n
  = scanPeriods config zeroCrossings j n.
Proof.
  revert j. induction n as [| n IH]; intro j; [reflexivity |].
  cbn [scanPeriods].
  destruct (nth_error zeroCrossings (j - 1)) as [before |]; [| reflexivity].
  destruct (nth_error zeroCrossings j) as [here |]; [| reflexivity].
  cbn [engineSettings minimumPeriod maximumPeriod]. rewrite IH. reflexivity.
Qed.

Lemma calculatePeriod_engineSettings (st : PluginState) :
  calculatePeriod (withEngineSettings st)
  = (withEngineSettings (fst (calculatePeriod st)), snd (calculatePeriod st)).
Proof.
  unfold calculatePeriod.
  cbn [withEngineSettings attitudeBuffer currentConfig periodState].
  rewrite scanPeriods_engineSettings.
  destruct (length (attitudeBuffer st) <? 10)%nat; [reflexivity |].
  cbv zeta.
  destruct (length (scanZeroCrossings _ _ _) <? 2)%nat; [reflexivity |].
  destruct (length (scanPeriods _ _ _ _) =? 0)%nat; reflexivity.
Qed.

Lemma calculateRelativeWaveDirection_engineSettings
    (st : PluginState) (buffer : list Entry) :
  calculateRelativeWaveDirection buffer
    (calculateMotionStatistics (withEngineSettings st) buffer)
  = calculateRelativeWaveDirection buffer (calculateMotionStatistics st buffer).
Proof.
  unfold calculateRelativeWaveDirection, calculateMotionStatistics.
  destruct (length buffer <? 5)%nat; reflexivity.
Qed.

Lemma calculateAbsoluteWaveDirection_engineSettings
    (st : PluginState) (buffer : list Entry) :
  calculateAbsoluteWaveDirection (withEngineSettings st) buffer
    (calculateMotionStatistics (withEngineSettings st) buffer)
  = (withEngineSettings
       (fst (calculateAbsoluteWaveDirection st buffer
               (calculateMotionStatistics st buffer))),
     snd (calculateAbsoluteWaveDirection st buffer
            (calculateMotionStatistics st buffer))).
Proof.
  unfold calculateAbsoluteWaveDirection.
  rewrite calculateRelativeWaveDirection_engineSettings.
  cbn [withEngineSettings lastHeading].
  destruct (lastHeading st); [| reflexivity].
  destruct (calculateRelativeWaveDirection buffer _); reflexivity.
Qed.

Lemma calculateSeaState_engineSettings (st : PluginState) (now later : Z) :
  calculateSeaState (withEngineSettings st) now later
  = (withEngineSettings (fst (calculateSeaState st now later)),
     snd (calculateSeaState st now later)).
Proof.
  unfold calculateSeaState.
  cbn [withEngineSettings lastAttitude attitudeBuffer maxBufferSize].
  destruct (Attitude.pitch (lastAttitude st)) as [p |]; [| reflexivity].
  destruct (Attitude.roll (lastAttitude st)) as [r |]; [| reflexivity].
  set (magnitude := JS.hypot _ _).
  set (entry := AttitudeBufferEntry.mk p r _ now magnitude).
  set (buffer' := JS.pushShift (maxBufferSize st) (attitudeBuffer st) entry).
  change (set_attitudeBuffer buffer' (withEngineSettings st))
    with (withEngineSettings (set_attitudeBuffer buffer' st)).
  set (st1 := set_attitudeBuffer buffer' st).
  change (attitudeBuffer (withEngineSettings st1)) with (attitudeBuffer st1).
  cbn [withEngineSettings currentConfig engineSettings waveMultiplier enableHeave
       vesselLength enablePeriod enableDirection].
  fold (engineSettings (currentConfig st1)). fold (withEngineSettings st1).
  rewrite calculatePeriod_engineSettings.
  destruct (enablePeriod (currentConfig st1)
            && (10 <=? length (attitudeBuffer st1))%nat).
  - destruct (calculatePeriod st1) as [st2 period]. cbn [fst snd].
    change (attitudeBuffer (withEngineSettings st2)) with (attitudeBuffer st2).
    rewrite calculateAbsoluteWaveDirection_engineSettings.
    destruct (enableDirection (currentConfig st1)
              && (10 <=? length (attitudeBuffer st2))%nat).
    + destruct (calculateAbsoluteWaveDirection st2 (attitudeBuffer st2)
                  (calculateMotionStatistics st2 (attitudeBuffer st2)))
        as [st3 direction].
      reflexivity.
    + reflexivity.
  - change (attitudeBuffer (withEngineSettings st1)) with (attitudeBuffer st1).
    rewrite calculateAbsoluteWaveDirection_engineSettings.
    destruct (enableDirection (currentConfig st1)
              && (10 <=? length (attitudeBuffer st1))%nat).
    + destruct (calculateAbsoluteWaveDirection st1 (attitudeBuffer st1)
                  (calculateMotionStatistics st1 (attitudeBuffer st1)))
        as [st3 direction].
      reflexivity.
    + reflexivity.
Qed.

Lemma handleEvent_engineSettings (st : PluginState) (e : Event) :
  handleEvent (withEngineSettings st) e
  = (withEngineSettings (fst (handleEvent st e)), snd (handleEvent st e)).
Proof.
  destruct e as [value stamp now later | heading]; cbn [handleEvent];
    [| reflexivity].
  change (updateAttitudeFromValue value stamp (withEngineSettings st))
    with (withEngineSettings (updateAttitudeFromValue value stamp st)).
  apply calculateSeaState_engineSettings.
Qed.

Lemma run_engineSettings (events : list Event) (st : PluginState) :
  run (withEngineSettings st) events
  = (withEngineSettings (fst (run st events)), snd (run st events)).
Proof.
  revert st. induction events as [| e events IH]; intro st; [reflexivity |].
  cbn [run]. rewrite handleEvent_engineSettings.
  destruct (handleEvent st e) as [st1 out]. cbn [fst snd]. rewrite IH.
  destruct (run st1 events) as [st2 outs]. reflexivity.
Qed.

(** X26: once the plugin is started, the settings [enabled], [baselineK],
    [updateRate], [periodBufferSize] and [compassSource] are not read by
    any tick: blanking them changes no result of any run, nothing of the
    state but these settings themselves, and no delta that is built from a
    result. *)
Theorem idle_settings_change_nothing :
  forall (events : list Event) (st : PluginState),
    snd (run (withEngineSettings st) events) = snd (run st events)
    /\ fst (run (withEngineSettings st) events)
       = withEngineSettings (fst (run st events))
    /\ (forall res,
          emitSeaStateData (withEngineSettings st) res = emitSeaStateData st res).
Proof.
  intros events st. rewrite run_engineSettings.
  split; [reflexivity |]. split; reflexivity.
Qed.

(** ** The source label after the start *)

Lemma allWhiteSpace_truthy (name : string) :
  allWhiteSpace name = false -> truthy name = true.
Proof. destruct name; [discriminate | reflexivity]. Qed.

Lemma getVesselBasedSource_blank (name suffix : string) :
  allWhiteSpace name = true ->
  getVesselBasedSource (Some name) suffix = ("seastate-" ++ suffix)%string.
Proof.
  intro Hws. unfold getVesselBasedSource.
  rewrite trim_truthy, Hws, andb_false_r. reflexivity.
Qed.

Lemma resolveVesselName_configured (name : string) (selfName : option string) :
  allWhiteSpace name = false ->
  resolveVesselName (Some name) selfName = Some name.
Proof.
  intro Hws. unfold resolveVesselName.
  rewrite trim_truthy, Hws, (allWhiteSpace_truthy name Hws). reflexivity.
Qed.

Lemma resolveVesselName_blank (configured selfName : option string) :
  configured = None
  \/ (exists name, configured = Some name /\ allWhiteSpace name = true) ->
  resolveVesselName configured selfName
  = match selfName with
    | Some server => if truthy server then Some server else configured
    | None => configured
    end.
Proof.
  intros [-> | (name & -> & Hws)]; unfold resolveVesselName; [reflexivity |].
  rewrite trim_truthy, Hws, orb_true_r. reflexivity.
Qed.

(** X27: the source label of the deltas after a start.  A configured
    vessel name that is not blank decides the label and the name the
    server holds is not consulted, also when the configured name formats
    to nothing.  With a missing or blank configured name the label comes
    from a non-empty server name, and is "seastate-derived" when the
    server has none. *)
Theorem source_label_after_start :
  forall (options : PluginOptions.t) (designLength : option R)
         (selfName : option string) (st : PluginState)
         (res : SeaStateResults.t),
    let label :=
      Delta.source
        (emitSeaStateData (startPlugin options designLength selfName st) res) in
    let configured := PluginOptions.vesselName options in
    (forall name,
        configured = Some name -> allWhiteSpace name = false ->
        label = getVesselBasedSource (Some name) "derived")
    /\ (configured = None
        \/ (exists name, configured = Some name /\ allWhiteSpace name = true) ->
        (forall server,
            selfName = Some server -> server <> EmptyString ->
            label = getVesselBasedSource (Some server) "derived")
        /\ (selfName = None \/ selfName = Some EmptyString ->
            label = "seastate-derived"%string)).
Proof.
  intros options designLength selfName st res label configured.
  assert (Hlabel : label
                   = getVesselBasedSource (resolveVesselName configured selfName)
                       "derived") by reflexivity.
  rewrite Hlabel. clear Hlabel label. split.
  - intros name Hname Hws. rewrite Hname, resolveVesselName_configured by exact Hws.
    reflexivity.
  - intro Hblank. rewrite (resolveVesselName_blank configured selfName Hblank).
    split.
    + intros server -> Hserver.
      destruct server; [contradiction | reflexivity].
    + intros [-> | ->]; cbn [truthy];
        (destruct Hblank as [-> | (name & -> & Hws)];
         [reflexivity | apply getVesselBasedSource_blank; exact Hws]).
Qed.

(** ** The combined axis *)

Lemma atan2_scale (k y x : R) :
  0 < k -> JS.atan2 (k * y) (k * x) = JS.atan2 y x.
Proof.
  intro Hk. unfold JS.atan2.
  assert (Hquot : x <> 0 -> k * y / (k * x) = y / x) by (intro; field; lra).
  destruct (Rtotal_order x 0) as [Hx | [Hx | Hx]];
    destruct (Rtotal_order y 0) as [Hy | [Hy | Hy]];
    repeat match goal with
           | |- context [JS.ltb ?a ?b] =>
               first [rewrite (ltb_true a b) by nra
                     | rewrite (ltb_false a b) by nra]
           | |- context [JS.leb ?a ?b] =>
               first [rewrite (leb_true a b) by nra
                     | rewrite (leb_false a b) by nra]
           end;
    rewrite ?Hquot by lra; reflexivity.
Qed.

Lemma motionVectorSum_steady (p r m : R) (recent : list Entry) (x y : R) :
  Forall (sameMotion p r m) recent ->
  fold_left
    (fun (s : R * R) entry =>
       let (sumX, sumY) := s in
       let motionAngle := JS.atan2 (roll entry) (pitch entry) in
       (sumX + cos motionAngle * motionMagnitude entry,
        sumY + sin motionAngle * motionMagnitude entry))
    recent (x, y)
  = (x + INR (length recent) * m * cos (JS.atan2 r p),
     y + INR (length recent) * m * sin (JS.atan2 r p)).
Proof.
  intro Hall. revert x y. induction Hall as [| e recent (Hp & Hr & Hm) _ IH];
    intros x y.
  - cbn. f_equal; ring.
  - cbn [fold_left]. rewrite IH, Hp, Hr, Hm.
    change (length (e :: recent)) with (S (length recent)). rewrite S_INR.
    f_equal; ring.
Qed.

Lemma motionVectorSum_same (p r m : R) (recent : list Entry) :
  Forall (sameMotion p r m) recent ->
  motionVectorSum recent
  = (0 + INR (length recent) * m * cos (JS.atan2 r p),
     0 + INR (length recent) * m * sin (JS.atan2 r p)).
Proof. intro Hall. unfold motionVectorSum. apply motionVectorSum_steady, Hall. Qed.

(** X28: for a combined motion whose last ten entries share one pitch, one
    roll and one positive magnitude, the relative direction is the angle
    of the vector of pitch and roll, [atan2(roll, pitch)], brought into
    [0, 2 PI): averaging the motion vectors changes nothing when they are
    all the same. *)
Theorem combined_axis_steady_attitude :
  forall (buffer : list Entry) (stats : MotionStatistics) (p r m : R),
    (10 <= length buffer)%nat ->
    dominantMotionAxis stats = AxisCombined ->
    Forall (sameMotion p r m) (skipn (length buffer - 10) buffer) ->
    0 < m ->
    calculateRelativeWaveDirection buffer stats
    = Some (if JS.ltb (JS.atan2 r p) 0
            then JS.atan2 r p + 2 * PI else JS.atan2 r p).
Proof.
  intros buffer stats p r m Hlen Haxis Hall Hm.
  unfold calculateRelativeWaveDirection.
  destruct (Nat.ltb_spec (length buffer) 10) as [Hshort | _]; [lia |].
  rewrite Haxis. rewrite (motionVectorSum_same p r m _ Hall).
  assert (Hten : length (skipn (length buffer - 10) buffer) = 10%nat)
    by (rewrite length_skipn; lia).
  rewrite Hten.
  assert (Hangle : JS.atan2 (0 + INR 10 * m * sin (JS.atan2 r p))
                            (0 + INR 10 * m * cos (JS.atan2 r p))
                   = JS.atan2 r p).
  { replace (0 + INR 10 * m * sin (JS.atan2 r p))
      with (INR 10 * m * sin (JS.atan2 r p)) by ring.
    replace (0 + INR 10 * m * cos (JS.atan2 r p))
      with (INR 10 * m * cos (JS.atan2 r p)) by ring.
    rewrite atan2_scale.
    - apply atan2_sin_cos. apply atan2_bound.
    - apply Rmult_lt_0_compat; [apply lt_0_INR; lia | exact Hm]. }
  rewrite Hangle. reflexivity.
Qed.

Lemma combined_axis_steady_attitude_witness :
  (10 <= length steadyBuffer)%nat
  /\ dominantMotionAxis combinedStats = AxisCombined
  /\ Forall (sameMotion 0.1 0.1
               (JS.hypot (0.1 * (180 / PI)) (0.1 * (180 / PI))))
            (skipn (length steadyBuffer - 10) steadyBuffer)
  /\ 0 < JS.hypot (0.1 * (180 / PI)) (0.1 * (180 / PI))
  /\ calculateRelativeWaveDirection steadyBuffer combinedStats
     = Some (if JS.ltb (JS.atan2 0.1 0.1) 0
             then JS.atan2 0.1 0.1 + 2 * PI else JS.atan2 0.1 0.1).
Proof.
  assert (Hlen : (10 <= length steadyBuffer)%nat) by (cbn; lia).
  assert (Hall : Forall (sameMotion 0.1 0.1
                           (JS.hypot (0.1 * (180 / PI)) (0.1 * (180 / PI))))
                        (skipn (length steadyBuffer - 10) steadyBuffer)).
  { cbn [steadyBuffer length Nat.sub skipn].
    repeat constructor. }
  assert (Hm : 0 < JS.hypot (0.1 * (180 / PI)) (0.1 * (180 / PI))).
  { rewrite hypot_degrees. pose proof PI_RGT_0 as Hpi.
    apply Rmult_lt_0_compat; [apply Rdiv_lt_0_compat; lra |].
    apply sqrt_lt_R0. lra. }
  split; [exact Hlen |]. split; [reflexivity |]. split; [exact Hall |].
  split; [exact Hm |].
  exact (combined_axis_steady_attitude steadyBuffer combinedStats 0.1 0.1 _
           Hlen eq_refl Hall Hm).
Defined.
